(** * no-response: closing stale issues and the label life cycle

    A shallow embedding of [src/no-response.ts] (class [NoResponse]) and the
    properties of its three entry points [sweep], [unmark] and [removeLabels].

    The class talks to a remote issue tracker through octokit.  Every method
    is embedded as a program of the monad [Prog]: a finite tree whose nodes
    are the requests the method sends, in program order, and whose branches
    are the answers it may get.  Nothing is assumed about the remote service:
    a program is run against an arbitrary environment [Env], a state-passing
    responder, and the run yields the method's outcome, the final state of the
    responder and the trace of requests that were sent.

    Conventions of the embedding.
    - A JavaScript [Date] is a [Date]: a time value, an integer number of
      milliseconds, or Invalid Date beyond 8.64e15 ms on either side of the
      epoch.  The days of the configuration are an integer, and the clock
      reads the time value of a valid date; the arithmetic of [since] on them
      is exact wherever its result is a valid date.
    - [core.debug] and [core.info] only write to the log of the action.  What
      is kept of them is the evaluation of an argument that can throw: the
      [toISOString] of the two dates [getCloseableIssues] compares.
    - An awaited call that is rejected throws; a call that is not awaited
      ([start], [spawn]) is sent, and its outcome is dropped. *)

From Stdlib Require Import String Ascii ZArith List Bool Lia.
Import ListNotations.

Local Open Scope string_scope.
Local Open Scope Z_scope.

(* ===================================================================== *)
(** ** Data model *)
(* ===================================================================== *)

(** [this.config.repo], as [github.context.repo] gives it. *)
Record Repo := { owner : string; repo : string }.

(** [interface Issue { issue_number; owner; repo }]. *)
Record Issue := {
  issue_number : Z;
  issue_owner : string;
  issue_repo : string
}.

(** [{ name: string }], the label of an event and of an issue. *)
Record Label := { name : string }.

(** [interface LabeledEvent { created_at; event; label }]; [created_at] is the
    number [new Date(event.created_at)] is built from. *)
Record LabeledEvent := {
  created_at : Z;
  event : string;
  label : Label
}.

(** [interface RestIssue { number }]. *)
Record RestIssue := { number : Z }.

(** [{ login }] of a user object. *)
Record User := { login : string }.

(** The fields of the data of [issues.get] that [unmark] reads; [user] and
    [closed_by] may be null. *)
Record IssueInfo := {
  info_user : option User;
  info_state : string;
  info_closed_by : option User
}.

(** The fields of the webhook payloads that the class reads. *)
Record Repository := { repository_owner : User; repository_name : string }.
Record PayloadIssue := { payload_number : Z; payload_user : User }.
Record Comment := { comment_user : User; comment_body : string }.

(** [IssueCommentEvent]: [{ repository, issue, comment }]. *)
Record IssueCommentEvent := {
  ice_repository : Repository;
  ice_issue : PayloadIssue;
  ice_comment : Comment
}.

(** [IssuesEvent]: [{ action, repository, issue, sender }]. *)
Record IssuesEvent := {
  ie_action : string;
  ie_repository : Repository;
  ie_issue : PayloadIssue;
  ie_sender : User
}.

(** The response of [issues.listEvents], which [findLastLabeledEvent] hands
    to [octokit.paginate] as the route to page through: the url of the
    request (the issue and the page size) and the first page of events. *)
Record EventsPage := {
  page_issue : Issue;
  page_per_page : Z;
  page_data : list LabeledEvent
}.

(** Modelled from the spec: the class [Config] of [./config], which is not
    among the sources.  The fields are those of SweepConfig in the data model
    of the specification; the three optional ones are [None] when undefined. *)
Record Config := {
  token : string;
  config_repo : Repo;
  responseRequiredLabel : string;
  responseRequiredColor : string;
  daysUntilClose : Z;
  closeComment : option string;
  optionalFollowUpLabel : option string;
  optionalFollowUpLabelColor : option string
}.

(* ===================================================================== *)
(** ** Requests, answers and programs *)
(* ===================================================================== *)

(** The message of a thrown [Error]. *)
Definition Error := string.

Inductive Result (A : Type) : Type :=
| Ok (a : A)
| Err (e : Error).
Arguments Ok {A} a.
Arguments Err {A} e.

(** The asynchronous calls of the class, with their parameters. *)
Inductive Request : Type :=
| issues_get (i : Issue)
| issues_listLabelsOnIssue (i : Issue)
| issues_removeLabel (i : Issue) (label_name : string)
| issues_addLabels (i : Issue) (labels : list string)
| issues_getLabel (r : Repo) (label_name : string)
| issues_createLabel (r : Repo) (label_name color : string)
| issues_createComment (i : Issue) (body : string)
| issues_update (i : Issue) (state : string) (state_reason : option string)
| issues_listEvents (i : Issue) (per_page : Z)
| paginate (route : EventsPage)
| search_issuesAndPullRequests (q sort order : string) (per_page : Z)
| fs_readFile (path : string).

(** What a fulfilled call resolves to (the part of it the class reads). *)
Definition Response (r : Request) : Type :=
  match r with
  | issues_get _ => IssueInfo
  | issues_listLabelsOnIssue _ => list Label
  | issues_getLabel _ _ => Label
  | issues_listEvents _ _ => EventsPage
  | paginate _ => list LabeledEvent
  | search_issuesAndPullRequests _ _ _ _ => list RestIssue
  | fs_readFile _ => string
  | issues_removeLabel _ _ | issues_addLabels _ _ | issues_createLabel _ _ _
  | issues_createComment _ _ | issues_update _ _ _ => unit
  end.

(** The synchronous reads of the process: an environment variable, the
    payload of the workflow context, the clock, and [JSON.parse]. *)
Inductive Query : Type :=
| env_GITHUB_EVENT_PATH
| context_payload
| date_getTime
| JSON_parse (text : string).

Definition Reply (q : Query) : Type :=
  match q with
  | env_GITHUB_EVENT_PATH => option string
  | context_payload => IssuesEvent
  | date_getTime => Z
  | JSON_parse _ => Result IssueCommentEvent
  end.

(** Programs: return, throw, send a request and go on with its outcome, or
    read from the process. *)
Inductive Prog (A : Type) : Type :=
| Ret (a : A)
| Throw (e : Error)
| Await (r : Request) (k : Result (Response r) -> Prog A)
| Ask (q : Query) (k : Reply q -> Prog A).
Arguments Ret {A} a.
Arguments Throw {A} e.
Arguments Await {A} r k.
Arguments Ask {A} q k.

Fixpoint bind {A B : Type} (p : Prog A) (f : A -> Prog B) : Prog B :=
  match p with
  | Ret a => f a
  | Throw e => Throw e
  | Await r k => Await r (fun x => bind (k x) f)
  | Ask q k => Ask q (fun x => bind (k x) f)
  end.

Notation "x <- p ;; k" := (bind p (fun x => k))
  (at level 61, p at next level, right associativity).
Notation "p ;; k" := (bind p (fun _ => k))
  (at level 61, right associativity).

(** [try { p } catch (e) { h e }]. *)
Fixpoint tryCatch {A : Type} (p : Prog A) (h : Error -> Prog A) : Prog A :=
  match p with
  | Ret a => Ret a
  | Throw e => h e
  | Await r k => Await r (fun x => tryCatch (k x) h)
  | Ask q k => Ask q (fun x => tryCatch (k x) h)
  end.

(** [throw] of a rejected outcome. *)
Definition settle {A : Type} (x : Result A) : Prog A :=
  match x with
  | Ok a => Ret a
  | Err e => Throw e
  end.

(** [await f(...)]: the call is sent; a rejection throws. *)
Definition call (r : Request) : Prog (Response r) := Await r settle.

(** [f(...)] of an asynchronous call without [await]: the call is sent and
    its outcome is dropped. *)
Definition start (r : Request) : Prog unit := Await r (fun _ => Ret tt).

(** An asynchronous method called without [await]: the caller does not see
    its rejection.  The requests of the method are placed where it is called
    (the interleaving with what the caller does next is not represented). *)
Definition spawn (p : Prog unit) : Prog unit := tryCatch p (fun _ => Ret tt).

Definition ask (q : Query) : Prog (Reply q) := Ask q Ret.

(** [for (const x of l) { f x }]. *)
Fixpoint forOf {A : Type} (l : list A) (f : A -> Prog unit) : Prog unit :=
  match l with
  | [] => Ret tt
  | x :: l' => f x ;; forOf l' f
  end.

(** [scramjet.fromArray(l).filter(f).toArray()]: the elements whose test
    resolves to true, in the order of [l]; a rejected test rejects the whole. *)
Fixpoint filterAsync {A : Type} (f : A -> Prog bool) (l : list A) : Prog (list A) :=
  match l with
  | [] => Ret []
  | x :: l' =>
      keep <- f x ;;
      rest <- filterAsync f l' ;;
      Ret (if keep then x :: rest else rest)
  end.

(** The environment a program runs in: how the remote service and the file
    system answer a request in a state, and what the process reads. *)
Record Env (S : Type) := {
  remote : forall r : Request, S -> Result (Response r) * S;
  local : forall q : Query, S -> Reply q
}.
Arguments remote {S} e r s.
Arguments local {S} e q s.

(** The outcome of a run: what the program returned or threw, the final
    state, and the requests sent, oldest first. *)
Fixpoint run {S A : Type} (env : Env S) (p : Prog A) (s : S)
  : Result A * S * list Request :=
  match p with
  | Ret a => (Ok a, s, [])
  | Throw e => (Err e, s, [])
  | Await r k =>
      let '(x, s1) := remote env r s in
      let '(res, s2, t) := run env (k x) s1 in
      (res, s2, r :: t)
  | Ask q k => run env (k (local env q s)) s
  end.

Definition outcome {S A : Type} (x : Result A * S * list Request) : Result A :=
  fst (fst x).
Definition final {S A : Type} (x : Result A * S * list Request) : S :=
  snd (fst x).
Definition trace {S A : Type} (x : Result A * S * list Request) : list Request :=
  snd x.

(* ===================================================================== *)
(** ** JavaScript helpers *)
(* ===================================================================== *)

(** Truthiness of an optional string: undefined and the empty string are
    falsy. *)
Definition truthy (s : option string) : bool :=
  match s with
  | Some (String _ _) => true
  | _ => false
  end.

(** [s || d]. *)
Definition orElse (s : option string) (d : string) : string :=
  match s with
  | Some (String c r) => String c r
  | _ => d
  end.

(** [l.includes(x)] on an array of strings. *)
Definition includes (l : list string) (x : string) : bool :=
  existsb (String.eqb x) l.

(** [a?.login === b] where [a] may be null. *)
Definition login_is (a : option User) (b : string) : bool :=
  match a with
  | Some u => String.eqb (login u) b
  | None => false
  end.

(** A [Date]: its time value in milliseconds since the epoch, or Invalid
    Date. *)
Inductive Date : Type :=
| ValidDate (time : Z)
| InvalidDate.

(** The largest time value of a [Date], 8.64e15 ms. *)
Definition maxTime : Z := 8640000000000000.

(** [new Date(v)] for an integer [v]: invalid beyond [maxTime]. *)
Definition newDate (v : Z) : Date :=
  if Z.abs v <=? maxTime then ValidDate v else InvalidDate.

(** [d.toISOString()], whose string only goes to the log: a RangeError on an
    invalid date. *)
Definition toISOString (d : Date) : Prog unit :=
  match d with
  | ValidDate _ => Ret tt
  | InvalidDate => Throw "Invalid time value"
  end.

(** [a < b] on dates: the time values are compared, and an invalid date
    (NaN) is below nothing and above nothing. *)
Definition date_lt (a b : Date) : bool :=
  match a, b with
  | ValidDate x, ValidDate y => x <? y
  | _, _ => false
  end.

(** The double quote of the search query. *)
Definition dquote : string := String (ascii_of_nat 34) EmptyString.

(** [{ issue_number: n, ...r }]. *)
Definition issue_of (r : Repo) (n : Z) : Issue :=
  {| issue_number := n; issue_owner := owner r; issue_repo := repo r |}.

(* ===================================================================== *)
(** ** The methods of [NoResponse] *)
(* ===================================================================== *)

(** [since(days)]: the date [days] days before now. *)
Definition since (days : Z) : Prog Date :=
  now <- ask date_getTime ;;
  let ttl := days * 24 * 60 * 60 * 1000 in
  Ret (newDate (now - ttl)).

(** [readPayload()]. *)
Definition readPayload : Prog IssueCommentEvent :=
  path <- ask env_GITHUB_EVENT_PATH ;;
  match path with
  | Some (String c r) =>
      text <- call (fs_readFile (String c r)) ;;
      parsed <- ask (JSON_parse text) ;;
      settle parsed
  | _ => Throw "GITHUB_EVENT_PATH is not defined"
  end.

(** [hasResponseRequiredLabel(issue)]. *)
Definition hasResponseRequiredLabel (cfg : Config) (issue : Issue) : Prog bool :=
  labels <- call (issues_listLabelsOnIssue issue) ;;
  Ret (includes (map name labels) (responseRequiredLabel cfg)).

(** The test of [find] in [findLastLabeledEvent]. *)
Definition isLabeledEvent (cfg : Config) (e : LabeledEvent) : bool :=
  String.eqb (event e) "labeled"
  && String.eqb (name (label e)) (responseRequiredLabel cfg).

(** [findLastLabeledEvent(issue)]; [None] is [undefined]. *)
Definition findLastLabeledEvent (cfg : Config) (issue : Issue)
  : Prog (option LabeledEvent) :=
  page <- call (issues_listEvents issue 100) ;;
  events <- call (paginate page) ;;
  Ret (find (isLabeledEvent cfg) (rev events)).

(** The test of [filter] in [getCloseableIssues]. *)
Definition isCloseable (cfg : Config) (labeledEarlierThan : Date) (issue : RestIssue)
  : Prog bool :=
  found <- findLastLabeledEvent cfg (issue_of (config_repo cfg) (number issue)) ;;
  match found with
  | None => Ret false
  | Some e =>
      let creationDate := newDate (created_at e) in
      toISOString creationDate ;;
      toISOString labeledEarlierThan ;;
      Ret (date_lt creationDate labeledEarlierThan)
  end.

(** The search query of [getCloseableIssues]. *)
Definition searchQuery (cfg : Config) : string :=
  ("repo:" ++ owner (config_repo cfg) ++ "/" ++ repo (config_repo cfg)
   ++ " is:issue is:open label:" ++ dquote ++ responseRequiredLabel cfg ++ dquote)%string.

(** [getCloseableIssues()]. *)
Definition getCloseableIssues (cfg : Config) : Prog (list RestIssue) :=
  let q := searchQuery cfg in
  labeledEarlierThan <- since (daysUntilClose cfg) ;;
  issues <- call (search_issuesAndPullRequests q "updated" "asc" 30) ;;
  filterAsync (isCloseable cfg labeledEarlierThan) issues.

(** [ensureLabelExists(name, color)]. *)
Definition ensureLabelExists (cfg : Config) (label_name color : string) : Prog unit :=
  tryCatch
    (call (issues_getLabel (config_repo cfg) label_name) ;; Ret tt)
    (fun _ => start (issues_createLabel (config_repo cfg) label_name color)).

(** [close(issue)]. *)
Definition close (cfg : Config) (issue : Issue) : Prog unit :=
  match closeComment cfg with
  | Some (String c r) => call (issues_createComment issue (String c r))
  | _ => Ret tt
  end ;;
  call (issues_update issue "closed" (Some "inactivity")).

(** [sweep()]. *)
Definition sweep (cfg : Config) : Prog unit :=
  ensureLabelExists cfg (responseRequiredLabel cfg) (responseRequiredColor cfg) ;;
  issues <- getCloseableIssues cfg ;;
  forOf issues (fun issue =>
    spawn (close cfg (issue_of (config_repo cfg) (number issue)))).

(** The issue a payload is about: [{ owner, repo, issue_number: number }]. *)
Definition payload_issue (r : Repository) (i : PayloadIssue) : Issue :=
  {| issue_number := payload_number i;
     issue_owner := login (repository_owner r);
     issue_repo := repository_name r |}.

(** [removeLabels()]. *)
Definition removeLabels (cfg : Config) : Prog unit :=
  match optionalFollowUpLabel cfg with
  | Some (String c r) =>
      let followUp := String c r in
      payload <- ask context_payload ;;
      if negb (String.eqb (ie_action payload) "closed") then Ret tt
      else
        let issue := payload_issue (ie_repository payload) (ie_issue payload) in
        if String.eqb (ie_action payload) "closed"
           && String.eqb (login (payload_user (ie_issue payload)))
                         (login (ie_sender payload))
        then
          labels <- call (issues_listLabelsOnIssue issue) ;;
          let plainLabels := map name labels in
          (if includes plainLabels (responseRequiredLabel cfg)
           then call (issues_removeLabel issue (responseRequiredLabel cfg))
           else Ret tt) ;;
          (if includes plainLabels followUp
           then call (issues_removeLabel issue followUp)
           else Ret tt)
        else Ret tt
  | _ => Ret tt
  end.

(** The reopening at the end of [unmark]: reading [user.login] of a null
    [user] is a TypeError. *)
Definition reopenIfClosedByOther (issue : Issue) (issueInfo : IssueInfo) : Prog unit :=
  if String.eqb (info_state issueInfo) "closed" then
    match info_user issueInfo with
    | None => Throw "TypeError"
    | Some u =>
        if negb (login_is (info_closed_by issueInfo) (login u))
        then start (issues_update issue "open" None)
        else Ret tt
    end
  else Ret tt.

(** [unmark()]. *)
Definition unmark (cfg : Config) : Prog unit :=
  payload <- readPayload ;;
  let comment := ice_comment payload in
  let issue := payload_issue (ice_repository payload) (ice_issue payload) in
  issueInfo <- call (issues_get issue) ;;
  isMarked <- hasResponseRequiredLabel cfg issue ;;
  if isMarked && login_is (info_user issueInfo) (login (comment_user comment)) then
    call (issues_removeLabel issue (responseRequiredLabel cfg)) ;;
    match optionalFollowUpLabel cfg with
    | Some (String c r) =>
        let followUp := String c r in
        ensureLabelExists cfg followUp
          (orElse (optionalFollowUpLabelColor cfg) "ffffff") ;;
        call (issues_addLabels issue [followUp])
    | _ => Ret tt
    end ;;
    reopenIfClosedByOther issue issueInfo
  else Ret tt.

(* ===================================================================== *)
(** ** An in-memory issue tracker *)
(* ===================================================================== *)

(** A tracker with one repository: what does not change while a method runs
    ([World]) and the labels, which the requests change ([Labels]). *)
Record World := {
  w_now : Z;
  w_event_path : option string;
  w_file : string;
  w_comment_event : Result IssueCommentEvent;
  w_issues_event : IssuesEvent;
  w_info : IssueInfo;
  w_events : Z -> list LabeledEvent;
  w_found : list RestIssue
}.

Record Labels := {
  on_issue : list string;
  in_repo : list string
}.

Definition without (x : string) (l : list string) : list string :=
  filter (fun y => negb (String.eqb x y)) l.

(** The tracker answers as the REST service does: removing a label that is
    not on the issue, reading a label the repository does not have and
    creating one it has are refused; a listing holds at most [per_page]
    entries. *)
Definition tracker_remote (w : World) (r : Request) (s : Labels)
  : Result (Response r) * Labels :=
  match r return Result (Response r) * Labels with
  | issues_get _ => (Ok (w_info w), s)
  | issues_listLabelsOnIssue _ => (Ok (map Build_Label (on_issue s)), s)
  | issues_removeLabel _ l =>
      if includes (on_issue s) l
      then (Ok tt, {| on_issue := without l (on_issue s); in_repo := in_repo s |})
      else (Err "Label does not exist", s)
  | issues_addLabels _ ls =>
      (Ok tt, {| on_issue := (on_issue s ++ ls)%list; in_repo := in_repo s |})
  | issues_getLabel _ l =>
      if includes (in_repo s) l then (Ok (Build_Label l), s)
      else (Err "Not Found", s)
  | issues_createLabel _ l _ =>
      if includes (in_repo s) l then (Err "already_exists", s)
      else (Ok tt, {| on_issue := on_issue s; in_repo := l :: in_repo s |})
  | issues_createComment _ _ => (Ok tt, s)
  | issues_update _ _ _ => (Ok tt, s)
  | issues_listEvents i n =>
      (Ok {| page_issue := i; page_per_page := n;
             page_data := firstn (Z.to_nat n) (w_events w (issue_number i)) |}, s)
  | paginate page => (Ok (w_events w (issue_number (page_issue page))), s)
  | search_issuesAndPullRequests _ _ _ n => (Ok (firstn (Z.to_nat n) (w_found w)), s)
  | fs_readFile _ => (Ok (w_file w), s)
  end.

Definition tracker_local (w : World) (q : Query) (_ : Labels) : Reply q :=
  match q return Reply q with
  | env_GITHUB_EVENT_PATH => w_event_path w
  | context_payload => w_issues_event w
  | date_getTime => w_now w
  | JSON_parse _ => w_comment_event w
  end.

Definition tracker (w : World) : Env Labels :=
  {| remote := tracker_remote w; local := tracker_local w |}.


(* ===================================================================== *)
(** ** Notions the properties are stated with *)
(* ===================================================================== *)

(** A labeled event whose label is the response-required label. *)
Definition labeledWith (cfg : Config) (e : LabeledEvent) : Prop :=
  event e = "labeled" /\ name (label e) = responseRequiredLabel cfg.

(** [e] is the most recent such event of the history [events] (the service
    lists events oldest first): no later event is one. *)
Definition mostRecentLabeled (cfg : Config) (events : list LabeledEvent)
    (e : LabeledEvent) : Prop :=
  exists before after,
    events = (before ++ e :: after)%list
    /\ labeledWith cfg e
    /\ forall x, In x after -> ~ labeledWith cfg x.

(** The threshold of the retention window: [now - daysUntilClose * 24h]. *)
Definition threshold (cfg : Config) (now : Z) : Z :=
  now - daysUntilClose cfg * 86400000.

(** Closeable at [now]: the most recent application of the label exists and
    is strictly older than the threshold. *)
Definition closeableAt (cfg : Config) (now : Z) (events : list LabeledEvent) : Prop :=
  exists e, mostRecentLabeled cfg events e /\ created_at e < threshold cfg now.

(** The service reports the event history [h] for [issue], whatever requests
    were served before. *)
Definition reportsHistory {S : Type} (env : Env S) (issue : Issue)
    (h : list LabeledEvent) : Prop :=
  forall s, exists page s1 s2,
    remote env (issues_listEvents issue 100) s = (Ok page, s1)
    /\ remote env (paginate page) s1 = (Ok h, s2).

(** The comparison of time values behind the verdict of [isCloseable] on a
    history. *)
Definition verdict (cfg : Config) (labeledEarlierThan : Z)
    (events : list LabeledEvent) : bool :=
  match find (isLabeledEvent cfg) (rev events) with
  | Some e => created_at e <? labeledEarlierThan
  | None => false
  end.

(** A time value a [Date] can hold. *)
Definition validTime (t : Z) : Prop := Z.abs t <= 8640000000000000.

(** What [isCloseable] returns or throws on a history, as a function. *)
Definition judge (cfg : Config) (labeledEarlierThan : Date)
    (events : list LabeledEvent) : Result bool :=
  match find (isLabeledEvent cfg) (rev events) with
  | Some e =>
      match newDate (created_at e), labeledEarlierThan with
      | ValidDate c, ValidDate t => Ok (c <? t)
      | _, _ => Err "Invalid time value"
      end
  | None => Ok false
  end.

(** What the filter of [getCloseableIssues] returns or throws on the found
    issues, as a function of their histories. *)
Fixpoint judgeAll (cfg : Config) (labeledEarlierThan : Date)
    (history : Z -> list LabeledEvent) (items : list RestIssue)
  : Result (list RestIssue) :=
  match items with
  | [] => Ok []
  | i :: items' =>
      match judge cfg labeledEarlierThan (history (number i)) with
      | Err e => Err e
      | Ok keep =>
          match judgeAll cfg labeledEarlierThan history items' with
          | Err e => Err e
          | Ok rest => Ok (if keep then i :: rest else rest)
          end
      end
  end.

(** Every request a program can send, whatever it is answered, satisfies [P]. *)
Fixpoint sendsOnly {A : Type} (P : Request -> Prop) (p : Prog A) : Prop :=
  match p with
  | Ret _ | Throw _ => True
  | Await r k => P r /\ forall x, sendsOnly P (k x)
  | Ask q k => forall x, sendsOnly P (k x)
  end.

Definition isSearch (r : Request) : bool :=
  match r with
  | search_issuesAndPullRequests _ _ _ _ => true
  | _ => false
  end.

Definition isListEvents (r : Request) : bool :=
  match r with
  | issues_listEvents _ _ => true
  | _ => false
  end.

(** The requests that change the tracker. *)
Definition isMutation (r : Request) : bool :=
  match r with
  | issues_removeLabel _ _ | issues_addLabels _ _ | issues_createLabel _ _ _
  | issues_createComment _ _ | issues_update _ _ _ => true
  | _ => false
  end.

(** Neither a search nor a listing of events. *)
Definition quiet (r : Request) : Prop :=
  isSearch r = false /\ isListEvents r = false.

Definition isUpdate (r : Request) : bool :=
  match r with
  | issues_update _ _ _ => true
  | _ => false
  end.

(** The reads [unmark] starts with, and their answers: the path of the
    event file, the payload parsed from it, then the issue and the labels it
    carries; [s3] is the state of the service after them. *)
Definition unmarkReads {S : Type} (env : Env S) (s : S) (path : string)
    (payload : IssueCommentEvent) (info : IssueInfo) (labels : list Label)
    (s3 : S) : Prop :=
  let issue := payload_issue (ice_repository payload) (ice_issue payload) in
  local env env_GITHUB_EVENT_PATH s = Some path
  /\ path <> EmptyString
  /\ exists text s1 s2,
       remote env (fs_readFile path) s = (Ok text, s1)
       /\ local env (JSON_parse text) s1 = Ok payload
       /\ remote env (issues_get issue) s1 = (Ok info, s2)
       /\ remote env (issues_listLabelsOnIssue issue) s2 = (Ok labels, s3).

(** The comment answers the request for a response: the issue carries the
    response-required label and the commenter is the author of the issue. *)
Definition unmarkable (cfg : Config) (payload : IssueCommentEvent)
    (info : IssueInfo) (labels : list Label) : Prop :=
  In (responseRequiredLabel cfg) (map name labels)
  /\ option_map login (info_user info)
     = Some (login (comment_user (ice_comment payload))).

(** What [unmark] does after its reads, once the comment has been found to
    answer the request. *)
Definition unmarking (cfg : Config) (issue : Issue) (issueInfo : IssueInfo)
  : Prog unit :=
  call (issues_removeLabel issue (responseRequiredLabel cfg)) ;;
  match optionalFollowUpLabel cfg with
  | Some (String c r) =>
      ensureLabelExists cfg (String c r)
        (orElse (optionalFollowUpLabelColor cfg) "ffffff") ;;
      call (issues_addLabels issue [String c r])
  | _ => Ret tt
  end ;;
  reopenIfClosedByOther issue issueInfo.

(* ===================================================================== *)
(** ** A worked scenario *)
(* ===================================================================== *)

Definition alice : User := {| login := "alice" |}.
Definition bob : User := {| login := "bob" |}.
Definition demo : Repository :=
  {| repository_owner := {| login := "octo" |}; repository_name := "demo" |}.
Definition issue7 : Issue :=
  {| issue_number := 7; issue_owner := "octo"; issue_repo := "demo" |}.

Definition day : Z := 24 * 60 * 60 * 1000.
Definition T0 : Z := 1700000000000.

(** Follow-up label configured, without a colour; a close comment. *)
Definition cfg_full : Config :=
  {| token := "t";
     config_repo := {| owner := "octo"; repo := "demo" |};
     responseRequiredLabel := "response-required";
     responseRequiredColor := "ededed";
     daysUntilClose := 14;
     closeComment := Some "Closed for lack of a response";
     optionalFollowUpLabel := Some "follow-up";
     optionalFollowUpLabelColor := None |}.

(** Neither a follow-up label nor a close comment. *)
Definition cfg_plain : Config :=
  {| token := "t";
     config_repo := {| owner := "octo"; repo := "demo" |};
     responseRequiredLabel := "response-required";
     responseRequiredColor := "ededed";
     daysUntilClose := 14;
     closeComment := None;
     optionalFollowUpLabel := None;
     optionalFollowUpLabelColor := None |}.

Definition labeled_at (t : Z) : LabeledEvent :=
  {| created_at := t; event := "labeled";
     label := {| name := "response-required" |} |}.

Definition history7 (n : Z) : list LabeledEvent :=
  if n =? 7 then [labeled_at T0] else [].

Definition alice_issue : PayloadIssue :=
  {| payload_number := 7; payload_user := alice |}.

(** Issue 7 of octo/demo, opened by alice and labelled at [T0], is open at
    [now], when the sweep runs. *)
Definition world_open (now : Z) : World :=
  {| w_now := now;
     w_event_path := None;
     w_file := EmptyString;
     w_comment_event := Err "Unexpected end of JSON input";
     w_issues_event :=
       {| ie_action := "labeled"; ie_repository := demo;
          ie_issue := alice_issue; ie_sender := bob |};
     w_info := {| info_user := Some alice; info_state := "open";
                  info_closed_by := None |};
     w_events := history7;
     w_found := [ {| number := 7 |} ] |}.

(** The issue has been closed by [closer]; then [sender] comments on it, or
    is the one whose closing is reported. *)
Definition world_closed (closer sender : User) : World :=
  {| w_now := T0 + 15 * day;
     w_event_path := Some "/github/workflow/event.json";
     w_file := "{ }";
     w_comment_event :=
       Ok {| ice_repository := demo; ice_issue := alice_issue;
             ice_comment := {| comment_user := sender; comment_body := "done" |} |};
     w_issues_event :=
       {| ie_action := "closed"; ie_repository := demo;
          ie_issue := alice_issue; ie_sender := sender |};
     w_info := {| info_user := Some alice; info_state := "closed";
                  info_closed_by := Some closer |};
     w_events := history7;
     w_found := [] |}.

(** The issue carries the response-required label. *)
Definition marked : Labels :=
  {| on_issue := ["bug"; "response-required"];
     in_repo := ["bug"; "response-required"] |}.

(** The issue carries both labels. *)
Definition marked_both : Labels :=
  {| on_issue := ["response-required"; "follow-up"];
     in_repo := ["bug"; "response-required"; "follow-up"] |}.

(* ===================================================================== *)
(** ** Further notions: kinds of requests, order, refusing services *)
(* ===================================================================== *)

Definition isComment (r : Request) : bool :=
  match r with
  | issues_createComment _ _ => true
  | _ => false
  end.

(** [l1] is [l2] with some elements left out, the order kept. *)
Inductive Subsequence {A : Type} : list A -> list A -> Prop :=
| Subsequence_nil : Subsequence [] []
| Subsequence_skip (x : A) (l1 l2 : list A) :
    Subsequence l1 l2 -> Subsequence l1 (x :: l2)
| Subsequence_keep (x : A) (l1 l2 : list A) :
    Subsequence l1 l2 -> Subsequence (x :: l1) (x :: l2).

(** The state change [close] asks for. *)
Definition closing_update (cfg : Config) (i : RestIssue) : Request :=
  issues_update (issue_of (config_repo cfg) (number i)) "closed" (Some "inactivity").

(** The tracker behind a service that refuses the requests [refused] picks
    out (a token without write access, an outage) and serves the others. *)
Definition tracker_refusing (w : World) (refused : Request -> bool) : Env Labels :=
  {| remote := fun r s =>
       if refused r then (Err "Resource not accessible by integration", s)
       else tracker_remote w r s;
     local := tracker_local w |}.

(** Only a follow-up label is configured besides the required one, with a
    colour of its own. *)
Definition cfg_colored : Config :=
  {| token := "t";
     config_repo := {| owner := "octo"; repo := "demo" |};
     responseRequiredLabel := "response-required";
     responseRequiredColor := "ededed";
     daysUntilClose := 14;
     closeComment := None;
     optionalFollowUpLabel := Some "follow-up";
     optionalFollowUpLabelColor := Some "0e8a16" |}.

(** The follow-up label is the response-required label itself. *)
Definition cfg_same : Config :=
  {| token := "t";
     config_repo := {| owner := "octo"; repo := "demo" |};
     responseRequiredLabel := "response-required";
     responseRequiredColor := "ededed";
     daysUntilClose := 14;
     closeComment := None;
     optionalFollowUpLabel := Some "response-required";
     optionalFollowUpLabelColor := None |}.

Definition refuse_mutations : Request -> bool := isMutation.
Definition refuse_all (_ : Request) : bool := true.
Definition refuse_listEvents : Request -> bool := isListEvents.
Definition refuse_addLabels (r : Request) : bool :=
  match r with
  | issues_addLabels _ _ => true
  | _ => false
  end.

(** Neither a comment nor an update of an issue. *)
Definition notClosing (r : Request) : Prop :=
  isUpdate r = false /\ isComment r = false.

(** After the labelling at [T0] the label was taken off the issue again and
    another label was put on it. *)
Definition history_busy (n : Z) : list LabeledEvent :=
  if n =? 7 then
    [ labeled_at T0;
      {| created_at := T0 + day; event := "unlabeled";
         label := {| name := "response-required" |} |};
      {| created_at := T0 + 2 * day; event := "labeled";
         label := {| name := "bug" |} |} ]
  else [].

Definition world_busy (now : Z) : World :=
  {| w_now := now;
     w_event_path := w_event_path (world_open now);
     w_file := w_file (world_open now);
     w_comment_event := w_comment_event (world_open now);
     w_issues_event := w_issues_event (world_open now);
     w_info := w_info (world_open now);
     w_events := history_busy;
     w_found := w_found (world_open now) |}.

(** Labelled at [T0] and again 10 days later. *)
Definition history_relabeled (n : Z) : list LabeledEvent :=
  if n =? 7 then [labeled_at T0; labeled_at (T0 + 10 * day)] else [].

Definition world_relabeled (now : Z) : World :=
  {| w_now := now;
     w_event_path := w_event_path (world_open now);
     w_file := w_file (world_open now);
     w_comment_event := w_comment_event (world_open now);
     w_issues_event := w_issues_event (world_open now);
     w_info := w_info (world_open now);
     w_events := history_relabeled;
     w_found := w_found (world_open now) |}.

(** A window of 200000000 days: the threshold lies before the first date a
    [Date] can hold. *)
Definition cfg_forever : Config :=
  {| token := "t";
     config_repo := {| owner := "octo"; repo := "demo" |};
     responseRequiredLabel := "response-required";
     responseRequiredColor := "ededed";
     daysUntilClose := 200000000;
     closeComment := None;
     optionalFollowUpLabel := None;
     optionalFollowUpLabelColor := None |}.

(* ===================================================================== *)
(** ** Running programs *)
(* ===================================================================== *)

Section Running.

Context {S : Type} (env : Env S).

Lemma run_bind {A B : Type} (p : Prog A) (f : A -> Prog B) (s : S) :
  run env (bind p f) s =
  match run env p s with
  | (Ok a, s1, t) =>
      let '(y, s2, t') := run env (f a) s1 in (y, s2, (t ++ t')%list)
  | (Err e, s1, t) => (Err e, s1, t)
  end.
Proof.
  revert s. induction p as [a | e | r k IH | q k IH]; intros s; simpl.
  - destruct (run env (f a) s) as [[y s2] t']. reflexivity.
  - reflexivity.
  - destruct (remote env r s) as [x s1]. rewrite IH.
    destruct (run env (k x) s1) as [[[a | e] s2] t].
    + destruct (run env (f a) s2) as [[y s3] t']. reflexivity.
    + reflexivity.
  - apply IH.
Qed.

Lemma run_tryCatch {A : Type} (p : Prog A) (h : Error -> Prog A) (s : S) :
  run env (tryCatch p h) s =
  match run env p s with
  | (Ok a, s1, t) => (Ok a, s1, t)
  | (Err e, s1, t) =>
      let '(y, s2, t') := run env (h e) s1 in (y, s2, (t ++ t')%list)
  end.
Proof.
  revert s. induction p as [a | e | r k IH | q k IH]; intros s; simpl.
  - reflexivity.
  - destruct (run env (h e) s) as [[y s2] t']. reflexivity.
  - destruct (remote env r s) as [x s1]. rewrite IH.
    destruct (run env (k x) s1) as [[[a | e] s2] t].
    + reflexivity.
    + destruct (run env (h e) s2) as [[y s3] t']. reflexivity.
  - apply IH.
Qed.

(** What a program can send bounds what a run of it sends. *)
Lemma sendsOnly_trace {A : Type} (P : Request -> Prop) (p : Prog A) (s : S) :
  sendsOnly P p -> Forall P (trace (run env p s)).
Proof.
  revert s. induction p as [a | e | r k IH | q k IH]; intros s H; simpl in *.
  - constructor.
  - constructor.
  - destruct H as [Hr Hk]. destruct (remote env r s) as [x s1].
    specialize (IH x s1 (Hk x)).
    destruct (run env (k x) s1) as [[res s2] t]. unfold trace in *; simpl in *.
    constructor; assumption.
  - apply IH, H.
Qed.

End Running.

Lemma sendsOnly_bind {A B : Type} (P : Request -> Prop) (p : Prog A) (f : A -> Prog B) :
  sendsOnly P p -> (forall a, sendsOnly P (f a)) -> sendsOnly P (bind p f).
Proof.
  intros Hp Hf. induction p as [a | e | r k IH | q k IH]; simpl in *.
  - apply Hf.
  - exact I.
  - destruct Hp as [Hr Hk]. split; [exact Hr | intros x; apply IH, Hk].
  - intros x. apply IH, Hp.
Qed.

Lemma sendsOnly_tryCatch {A : Type} (P : Request -> Prop) (p : Prog A) (h : Error -> Prog A) :
  sendsOnly P p -> (forall e, sendsOnly P (h e)) -> sendsOnly P (tryCatch p h).
Proof.
  intros Hp Hh. induction p as [a | e | r k IH | q k IH]; simpl in *.
  - exact I.
  - apply Hh.
  - destruct Hp as [Hr Hk]. split; [exact Hr | intros x; apply IH, Hk].
  - intros x. apply IH, Hp.
Qed.

Lemma sendsOnly_settle {A : Type} (P : Request -> Prop) (x : Result A) :
  sendsOnly P (settle x).
Proof. destruct x; exact I. Qed.

Lemma sendsOnly_call (P : Request -> Prop) (r : Request) :
  P r -> sendsOnly P (call r).
Proof. intros H. split; [exact H | intros x; apply sendsOnly_settle]. Qed.

Lemma sendsOnly_start (P : Request -> Prop) (r : Request) :
  P r -> sendsOnly P (start r).
Proof. intros H. split; [exact H | intros x; exact I]. Qed.

Lemma sendsOnly_forOf {A : Type} (P : Request -> Prop) (l : list A) (f : A -> Prog unit) :
  (forall a, sendsOnly P (f a)) -> sendsOnly P (forOf l f).
Proof.
  intros H. induction l as [| x l IH]; simpl.
  - exact I.
  - apply sendsOnly_bind; [apply H | intros _; exact IH].
Qed.

(* ===================================================================== *)
(** ** The last labeled event *)
(* ===================================================================== *)

Lemma isLabeledEvent_true (cfg : Config) (e : LabeledEvent) :
  isLabeledEvent cfg e = true <-> labeledWith cfg e.
Proof.
  unfold isLabeledEvent, labeledWith.
  rewrite andb_true_iff, !String.eqb_eq. reflexivity.
Qed.

Lemma find_none_all {A : Type} (f : A -> bool) (l : list A) :
  (forall x, In x l -> f x = false) -> find f l = None.
Proof.
  induction l as [| y l IH]; intros H; simpl.
  - reflexivity.
  - rewrite (H y (or_introl eq_refl)). apply IH. intros x Hx. apply H. right. exact Hx.
Qed.

Lemma find_app {A : Type} (f : A -> bool) (l1 l2 : list A) :
  find f (l1 ++ l2)%list =
  match find f l1 with
  | Some y => Some y
  | None => find f l2
  end.
Proof.
  induction l1 as [| y l1 IH]; simpl.
  - reflexivity.
  - destruct (f y); [reflexivity | exact IH].
Qed.

(** [events.reverse().find(f)] is the last element of [events] that
    satisfies [f]. *)
Lemma find_rev_last {A : Type} (f : A -> bool) (l : list A) (e : A) :
  find f (rev l) = Some e <->
  exists before after,
    l = (before ++ e :: after)%list /\ f e = true
    /\ forall x, In x after -> f x = false.
Proof.
  split.
  - revert e. induction l as [| y l IH]; intros e H; simpl in H.
    + discriminate.
    + rewrite find_app in H. destruct (find f (rev l)) as [z |] eqn:Hl.
      * injection H as ->. destruct (IH e eq_refl) as (b & a & -> & He & Ha).
        exists (y :: b), a. repeat split; assumption.
      * simpl in H. destruct (f y) eqn:Hy; [| discriminate].
        injection H as ->. exists [], l. repeat split; [assumption |].
        intros x Hx. apply (find_none _ _ Hl). apply in_rev in Hx. exact Hx.
  - intros (b & a & -> & He & Ha).
    rewrite rev_app_distr. simpl. rewrite <- app_assoc, find_app.
    rewrite find_none_all.
    + simpl. rewrite He. reflexivity.
    + intros x Hx. apply Ha. apply in_rev. exact Hx.
Qed.

Lemma verdict_closeableAt (cfg : Config) (now : Z) (events : list LabeledEvent) :
  verdict cfg (now - daysUntilClose cfg * 24 * 60 * 60 * 1000) events = true
  <-> closeableAt cfg now events.
Proof.
  unfold verdict, closeableAt, mostRecentLabeled, threshold.
  replace (now - daysUntilClose cfg * 24 * 60 * 60 * 1000)
    with (now - daysUntilClose cfg * 86400000) by lia.
  split.
  - destruct (find (isLabeledEvent cfg) (rev events)) as [e |] eqn:Hf; [| discriminate].
    intros Hlt. apply find_rev_last in Hf. destruct Hf as (b & a & -> & He & Ha).
    exists e. split; [| apply Z.ltb_lt; exact Hlt].
    exists b, a. split; [reflexivity |]. split; [apply isLabeledEvent_true; exact He |].
    intros x Hx Hl. apply isLabeledEvent_true in Hl. rewrite (Ha x Hx) in Hl. discriminate.
  - intros (e & (b & a & -> & He & Ha) & Hlt).
    assert (Hf : find (isLabeledEvent cfg) (rev (b ++ e :: a)) = Some e).
    { apply find_rev_last. exists b, a. split; [reflexivity |].
      split; [apply isLabeledEvent_true; exact He |].
      intros x Hx. destruct (isLabeledEvent cfg x) eqn:Hl; [| reflexivity].
      exfalso. apply (Ha x Hx). apply isLabeledEvent_true. exact Hl. }
    rewrite Hf. apply Z.ltb_lt. exact Hlt.
Qed.

(* ===================================================================== *)
(** ** Which issues the sweep judges closeable *)
(* ===================================================================== *)

Lemma newDate_valid (t : Z) : validTime t -> newDate t = ValidDate t.
Proof.
  unfold validTime, newDate, maxTime. intros H.
  apply Z.leb_le in H. rewrite H. reflexivity.
Qed.

(** A verdict that is reached is the comparison of the time values. *)
Lemma judge_Ok (cfg : Config) (thr : Z) (h : list LabeledEvent) (b : bool) :
  judge cfg (newDate thr) h = Ok b -> b = verdict cfg thr h.
Proof.
  unfold judge, verdict.
  destruct (find (isLabeledEvent cfg) (rev h)) as [e |].
  - unfold newDate.
    destruct (Z.abs (created_at e) <=? maxTime); [| discriminate].
    destruct (Z.abs thr <=? maxTime); [| discriminate].
    intros H. injection H as <-. reflexivity.
  - intros H. injection H as <-. reflexivity.
Qed.

(** With valid dates the verdict is reached. *)
Lemma judge_valid (cfg : Config) (thr : Z) (h : list LabeledEvent) :
  validTime thr ->
  (forall e, In e h -> validTime (created_at e)) ->
  judge cfg (newDate thr) h = Ok (verdict cfg thr h).
Proof.
  intros Ht Hh. unfold judge, verdict.
  destruct (find (isLabeledEvent cfg) (rev h)) as [e |] eqn:Hf; [| reflexivity].
  apply find_some in Hf. destruct Hf as [Hin _]. apply in_rev in Hin.
  rewrite (newDate_valid _ (Hh e Hin)), (newDate_valid _ Ht). reflexivity.
Qed.

Lemma judgeAll_Ok (cfg : Config) (thr : Z) (history : Z -> list LabeledEvent)
    (items kept : list RestIssue) :
  judgeAll cfg (newDate thr) history items = Ok kept ->
  kept = filter (fun i => verdict cfg thr (history (number i))) items.
Proof.
  revert kept. induction items as [| i items IH]; intros kept; simpl.
  - intros H. injection H as <-. reflexivity.
  - destruct (judge cfg (newDate thr) (history (number i))) as [b | e] eqn:Hj;
      [| discriminate].
    apply judge_Ok in Hj. subst b.
    destruct (judgeAll cfg (newDate thr) history items) as [rest | e]; [| discriminate].
    intros H. injection H as <-. rewrite (IH rest eq_refl).
    destruct (verdict cfg thr (history (number i))); reflexivity.
Qed.

Lemma judgeAll_valid (cfg : Config) (thr : Z) (history : Z -> list LabeledEvent)
    (items : list RestIssue) :
  validTime thr ->
  (forall i, In i items -> forall e, In e (history (number i)) -> validTime (created_at e)) ->
  judgeAll cfg (newDate thr) history items
  = Ok (filter (fun i => verdict cfg thr (history (number i))) items).
Proof.
  intros Ht. induction items as [| i items IH]; intros Hh; simpl.
  - reflexivity.
  - rewrite (judge_valid cfg thr _ Ht (Hh i (or_introl eq_refl))).
    rewrite IH by (intros j Hj; apply Hh; right; exact Hj).
    destruct (verdict cfg thr (history (number i))); reflexivity.
Qed.

Lemma isCloseable_run {S : Type} (env : Env S) (cfg : Config) (thr : Date)
    (i : RestIssue) (h : list LabeledEvent) (s : S) :
  reportsHistory env (issue_of (config_repo cfg) (number i)) h ->
  exists s' t, run env (isCloseable cfg thr i) s = (judge cfg thr h, s', t).
Proof.
  intros H. destruct (H s) as (page & s1 & s2 & Hl & Hp).
  unfold isCloseable, findLastLabeledEvent, judge. simpl.
  rewrite Hl. simpl. rewrite Hp. simpl.
  destruct (find (isLabeledEvent cfg) (rev h)) as [e |]; simpl; [| eauto].
  destruct (newDate (created_at e)) as [c |]; simpl; [| eauto].
  destruct thr as [t |]; simpl; eauto.
Qed.

Lemma filterAsync_isCloseable_run {S : Type} (env : Env S) (cfg : Config) (thr : Date)
    (history : Z -> list LabeledEvent) (items : list RestIssue) (s : S) :
  (forall i, In i items ->
     reportsHistory env (issue_of (config_repo cfg) (number i)) (history (number i))) ->
  exists s' t,
    run env (filterAsync (isCloseable cfg thr) items) s =
    (judgeAll cfg thr history items, s', t).
Proof.
  revert s. induction items as [| i items IH]; intros s H.
  - simpl. eauto.
  - cbn [filterAsync judgeAll]. rewrite run_bind.
    destruct (isCloseable_run env cfg thr i _ s (H i (or_introl eq_refl)))
      as (s1 & t1 & ->).
    destruct (judge cfg thr (history (number i))) as [keep | e]; [| eauto].
    rewrite run_bind.
    destruct (IH s1 (fun j Hj => H j (or_intror Hj))) as (s2 & t2 & ->).
    destruct (judgeAll cfg thr history items) as [rest | e]; simpl; eauto.
Qed.

(** [getCloseableIssues] returns or throws as the filter does on the found
    issues, for the threshold read from the clock when it starts. *)
Lemma getCloseableIssues_run {S : Type} (env : Env S) (cfg : Config)
    (history : Z -> list LabeledEvent) (items : list RestIssue) (s : S) :
  fst (remote env (search_issuesAndPullRequests (searchQuery cfg) "updated" "asc" 30) s)
    = Ok items ->
  (forall i, In i items ->
     reportsHistory env (issue_of (config_repo cfg) (number i)) (history (number i))) ->
  outcome (run env (getCloseableIssues cfg) s) =
  judgeAll cfg
    (newDate (local env date_getTime s - daysUntilClose cfg * 24 * 60 * 60 * 1000))
    history items.
Proof.
  intros Hs Hh. unfold getCloseableIssues, since. simpl.
  destruct (remote env _ s) as [x s1]. simpl in Hs. subst x. simpl.
  destruct (filterAsync_isCloseable_run env cfg
              (newDate (local env date_getTime s
                        - daysUntilClose cfg * 24 * 60 * 60 * 1000))
              history items s1 Hh) as (s2 & t & Hrun).
  rewrite Hrun. reflexivity.
Qed.

(** C1.  Let the dates be valid: the threshold [now - daysUntilClose * 24h]
    and the timestamps of the events of the found issues are time values a
    Date can hold.  Then, of the issues the search of a sweep found,
    [getCloseableIssues] returns exactly those whose most recent labeled event
    for the response-required label exists and is strictly older than the
    threshold: an issue with no such event is not returned, and neither is one
    whose event is exactly as old as the threshold. *)
Theorem getCloseableIssues_closeable_iff {S : Type} (env : Env S) (cfg : Config)
    (history : Z -> list LabeledEvent) (items : list RestIssue) (s : S) :
  fst (remote env (search_issuesAndPullRequests (searchQuery cfg) "updated" "asc" 30) s)
    = Ok items ->
  (forall i, In i items ->
     reportsHistory env (issue_of (config_repo cfg) (number i)) (history (number i))) ->
  Z.abs (local env date_getTime s - daysUntilClose cfg * 86400000) <= 8640000000000000 ->
  (forall i, In i items -> forall e, In e (history (number i)) ->
     Z.abs (created_at e) <= 8640000000000000) ->
  exists closeable,
    outcome (run env (getCloseableIssues cfg) s) = Ok closeable
    /\ forall i, In i items ->
         (In i closeable <->
          exists e, mostRecentLabeled cfg (history (number i)) e
                    /\ created_at e
                       < local env date_getTime s - daysUntilClose cfg * 86400000).
Proof.
  intros Hs Hh Hthr Hev. eexists. split.
  - rewrite (getCloseableIssues_run env cfg history items s Hs Hh).
    apply judgeAll_valid; [| exact Hev].
    unfold validTime.
    replace (local env date_getTime s - daysUntilClose cfg * 24 * 60 * 60 * 1000)
      with (local env date_getTime s - daysUntilClose cfg * 86400000) by lia.
    exact Hthr.
  - intros i Hi. rewrite filter_In, verdict_closeableAt.
    unfold closeableAt, threshold. tauto.
Qed.

Lemma tracker_reportsHistory (w : World) (issue : Issue) :
  reportsHistory (tracker w) issue (w_events w (issue_number issue)).
Proof. intros s. simpl. eauto. Qed.

(** Scenario A: labelled at [T0] with a window of 14 days, the issue is
    closeable 15 days later, and neither 13 nor exactly 14 days later. *)
Lemma getCloseableIssues_closeable_iff_witness :
  (exists closeable,
     outcome (run (tracker (world_open (T0 + 15 * day))) (getCloseableIssues cfg_full) marked)
       = Ok closeable
     /\ In {| number := 7 |} closeable)
  /\ (exists closeable,
     outcome (run (tracker (world_open (T0 + 14 * day))) (getCloseableIssues cfg_full) marked)
       = Ok closeable
     /\ ~ In {| number := 7 |} closeable)
  /\ (exists closeable,
     outcome (run (tracker (world_open (T0 + 13 * day))) (getCloseableIssues cfg_full) marked)
       = Ok closeable
     /\ ~ In {| number := 7 |} closeable).
Proof.
  assert (Hm : mostRecentLabeled cfg_full (history7 7) (labeled_at T0)).
  { exists [], []. repeat split. intros x []. }
  assert (Hu : forall e, mostRecentLabeled cfg_full (history7 7) e -> e = labeled_at T0).
  { intros e (b & a & Heq & _). destruct b as [| y [| z b]]; simpl in Heq.
    - injection Heq as <- _. reflexivity.
    - discriminate.
    - discriminate. }
  assert (Hv : forall i, In i [ {| number := 7 |} ] ->
                forall e, In e (history7 (number i)) ->
                Z.abs (created_at e) <= 8640000000000000).
  { intros i [<- | []] e [<- | []]. vm_compute. intros H. discriminate H. }
  repeat split.
  - destruct (getCloseableIssues_closeable_iff (tracker (world_open (T0 + 15 * day)))
                cfg_full history7 [ {| number := 7 |} ] marked eq_refl
                (fun i _ => tracker_reportsHistory _ _)
                ltac:(vm_compute; intros H; discriminate H) Hv) as (c & Hc & Hiff).
    exists c. split; [exact Hc |]. apply Hiff; [left; reflexivity |].
    exists (labeled_at T0). split; [exact Hm | vm_compute; reflexivity].
  - destruct (getCloseableIssues_closeable_iff (tracker (world_open (T0 + 14 * day)))
                cfg_full history7 [ {| number := 7 |} ] marked eq_refl
                (fun i _ => tracker_reportsHistory _ _)
                ltac:(vm_compute; intros H; discriminate H) Hv) as (c & Hc & Hiff).
    exists c. split; [exact Hc |]. intros Hin.
    apply Hiff in Hin; [| left; reflexivity]. destruct Hin as (e & He & Hlt).
    rewrite (Hu e He) in Hlt. vm_compute in Hlt. discriminate.
  - destruct (getCloseableIssues_closeable_iff (tracker (world_open (T0 + 13 * day)))
                cfg_full history7 [ {| number := 7 |} ] marked eq_refl
                (fun i _ => tracker_reportsHistory _ _)
                ltac:(vm_compute; intros H; discriminate H) Hv) as (c & Hc & Hiff).
    exists c. split; [exact Hc |]. intros Hin.
    apply Hiff in Hin; [| left; reflexivity]. destruct Hin as (e & He & Hlt).
    rewrite (Hu e He) in Hlt. vm_compute in Hlt. discriminate.
Defined.

(** C6.  With the histories of the issues fixed, what is closeable stays
    closeable: an issue that [getCloseableIssues] returned when the clock read
    [now] is returned again by any later run that finds it. *)
Theorem getCloseableIssues_monotonic {S S' : Type} (env : Env S) (env' : Env S')
    (cfg : Config) (history : Z -> list LabeledEvent)
    (items items' closeable closeable' : list RestIssue) (s : S) (s' : S') :
  fst (remote env (search_issuesAndPullRequests (searchQuery cfg) "updated" "asc" 30) s)
    = Ok items ->
  fst (remote env' (search_issuesAndPullRequests (searchQuery cfg) "updated" "asc" 30) s')
    = Ok items' ->
  (forall i, In i items ->
     reportsHistory env (issue_of (config_repo cfg) (number i)) (history (number i))) ->
  (forall i, In i items' ->
     reportsHistory env' (issue_of (config_repo cfg) (number i)) (history (number i))) ->
  local env date_getTime s < local env' date_getTime s' ->
  outcome (run env (getCloseableIssues cfg) s) = Ok closeable ->
  outcome (run env' (getCloseableIssues cfg) s') = Ok closeable' ->
  forall i, In i closeable -> In i items' -> In i closeable'.
Proof.
  intros Hs Hs' Hh Hh' Hlt Hc Hc' i Hi Hi'.
  rewrite (getCloseableIssues_run env cfg history items s Hs Hh) in Hc.
  rewrite (getCloseableIssues_run env' cfg history items' s' Hs' Hh') in Hc'.
  apply judgeAll_Ok in Hc. apply judgeAll_Ok in Hc'. subst closeable closeable'.
  apply filter_In in Hi. destruct Hi as [_ Hv].
  apply filter_In. split; [exact Hi' |].
  apply verdict_closeableAt. apply verdict_closeableAt in Hv.
  destruct Hv as (e & He & Hv). exists e. split; [exact He |].
  unfold threshold in *. lia.
Qed.

(** Closeable 15 days after the label was applied, the issue of the scenario
    is closeable 16 days after. *)
Lemma getCloseableIssues_monotonic_witness :
  exists closeable',
    outcome (run (tracker (world_open (T0 + 16 * day))) (getCloseableIssues cfg_full) marked)
      = Ok closeable'
    /\ In {| number := 7 |} closeable'.
Proof.
  eexists. split.
  - vm_compute. reflexivity.
  - apply (getCloseableIssues_monotonic
             (tracker (world_open (T0 + 15 * day))) (tracker (world_open (T0 + 16 * day)))
             cfg_full history7 [ {| number := 7 |} ] [ {| number := 7 |} ]
             [ {| number := 7 |} ] [ {| number := 7 |} ]
             marked marked eq_refl eq_refl
             (fun i _ => tracker_reportsHistory _ _)
             (fun i _ => tracker_reportsHistory _ _)).
    + vm_compute. reflexivity.
    + vm_compute. reflexivity.
    + vm_compute. reflexivity.
    + left. reflexivity.
    + left. reflexivity.
Defined.

(* ===================================================================== *)
(** ** The search of a sweep *)
(* ===================================================================== *)

Lemma filter_quiet (t : list Request) :
  Forall quiet t -> filter isSearch t = [] /\ filter isListEvents t = [].
Proof.
  induction 1 as [| r t [Hs Hl] _ [IHs IHl]]; simpl.
  - split; reflexivity.
  - rewrite Hs, Hl. split; assumption.
Qed.

Lemma ensureLabelExists_run {S : Type} (env : Env S) (cfg : Config)
    (label_name color : string) (s : S) :
  exists s1 t,
    run env (ensureLabelExists cfg label_name color) s = (Ok tt, s1, t)
    /\ Forall quiet t.
Proof.
  unfold ensureLabelExists. simpl.
  destruct (remote env (issues_getLabel (config_repo cfg) label_name) s) as [[l | e] s1]; simpl.
  - do 2 eexists. split; [reflexivity |]. repeat constructor.
  - destruct (remote env (issues_createLabel (config_repo cfg) label_name color) s1)
      as [x s2]; simpl.
    do 2 eexists. split; [reflexivity |]. repeat constructor.
Qed.

Lemma close_quiet (cfg : Config) (issue : Issue) :
  sendsOnly quiet (close cfg issue).
Proof.
  unfold close. apply sendsOnly_bind.
  - destruct (closeComment cfg) as [[| c r] |]; simpl; try exact I.
    split; [split; reflexivity | intros x; apply sendsOnly_settle].
  - intros _. apply sendsOnly_call. split; reflexivity.
Qed.

Lemma closing_quiet (cfg : Config) (issues : list RestIssue) :
  sendsOnly quiet
    (forOf issues (fun issue =>
       spawn (close cfg (issue_of (config_repo cfg) (number issue))))).
Proof.
  apply sendsOnly_forOf. intros a. unfold spawn.
  apply sendsOnly_tryCatch; [apply close_quiet | intros e; exact I].
Qed.

(** [isCloseable] lists the events of its issue once, with pages of 100. *)
Lemma isCloseable_trace {S : Type} (env : Env S) (cfg : Config) (thr : Date)
    (i : RestIssue) (s : S) :
  filter isListEvents (trace (run env (isCloseable cfg thr i) s))
    = [issues_listEvents (issue_of (config_repo cfg) (number i)) 100]
  /\ filter isSearch (trace (run env (isCloseable cfg thr i) s)) = [].
Proof.
  unfold isCloseable, findLastLabeledEvent. simpl.
  destruct (remote env (issues_listEvents _ 100) s) as [[page | e] s1]; simpl.
  - destruct (remote env (paginate page) s1) as [[h | e] s2]; simpl.
    + destruct (find (isLabeledEvent cfg) (rev h)) as [e |]; simpl;
        [| split; reflexivity].
      destruct (newDate (created_at e)); simpl; [| split; reflexivity].
      destruct thr; simpl; split; reflexivity.
    + split; reflexivity.
  - split; reflexivity.
Qed.

(** The filter considers the found issues in order, each at most once, and
    stops at the first one whose history cannot be read. *)
Lemma filterAsync_isCloseable_trace {S : Type} (env : Env S) (cfg : Config) (thr : Date)
    (items : list RestIssue) (s : S) :
  filter isSearch (trace (run env (filterAsync (isCloseable cfg thr) items) s)) = []
  /\ exists considered rest,
       items = (considered ++ rest)%list
       /\ filter isListEvents (trace (run env (filterAsync (isCloseable cfg thr) items) s))
          = map (fun x => issues_listEvents (issue_of (config_repo cfg) (number x)) 100)
                considered.
Proof.
  revert s. induction items as [| i items IH]; intros s.
  - simpl. split; [reflexivity |]. exists [], []. split; reflexivity.
  - cbn [filterAsync]. rewrite run_bind.
    destruct (isCloseable_trace env cfg thr i s) as [Hl Hs].
    destruct (run env (isCloseable cfg thr i) s) as [[[b | e] s1] t1].
    + rewrite run_bind. destruct (IH s1) as (Hs2 & considered & rest & Hi & Hl2).
      destruct (run env (filterAsync (isCloseable cfg thr) items) s1) as [[[l | e] s2] t2];
        unfold trace in *; simpl in *.
      * rewrite app_nil_r, !filter_app, Hs, Hs2, Hl, Hl2. split; [reflexivity |].
        exists (i :: considered), rest. rewrite Hi. split; reflexivity.
      * rewrite !filter_app, Hs, Hs2, Hl, Hl2. split; [reflexivity |].
        exists (i :: considered), rest. rewrite Hi. split; reflexivity.
    + unfold trace in *; simpl in *. rewrite Hs, Hl. split; [reflexivity |].
      exists [i], items. split; reflexivity.
Qed.

(** C7.  A run of [sweep] sends exactly one search, for the open issues of
    the repository that carry the response-required label, sorted by update
    time, oldest first, with a page size of 30; the issues whose events it
    then reads are an initial part of the issues of that one answer, so at
    most 30 when the service keeps to the page size. *)
Theorem sweep_searches_one_page {S : Type} (env : Env S) (cfg : Config) (s : S) :
  filter isSearch (trace (run env (sweep cfg) s))
  = [search_issuesAndPullRequests
       ("repo:" ++ owner (config_repo cfg) ++ "/" ++ repo (config_repo cfg)
        ++ " is:issue is:open label:" ++ dquote ++ responseRequiredLabel cfg ++ dquote)%string
       "updated" "asc" 30]
  /\ forall items,
       fst (remote env (search_issuesAndPullRequests (searchQuery cfg) "updated" "asc" 30)
              (final (run env (ensureLabelExists cfg (responseRequiredLabel cfg)
                                 (responseRequiredColor cfg)) s)))
         = Ok items ->
       (exists considered rest,
          items = (considered ++ rest)%list
          /\ filter isListEvents (trace (run env (sweep cfg) s))
             = map (fun x => issues_listEvents (issue_of (config_repo cfg) (number x)) 100)
                   considered)
       /\ ((length items <= 30)%nat ->
           (length (filter isListEvents (trace (run env (sweep cfg) s))) <= 30)%nat).
Proof.
  unfold sweep. rewrite run_bind.
  destruct (ensureLabelExists_run env cfg (responseRequiredLabel cfg)
              (responseRequiredColor cfg) s) as (s1 & t1 & -> & Hq).
  destruct (filter_quiet t1 Hq) as [Hs1 Hl1].
  rewrite run_bind. unfold getCloseableIssues, since, final. simpl.
  change ("repo:" ++ owner (config_repo cfg) ++ "/" ++ repo (config_repo cfg)
          ++ " is:issue is:open label:" ++ dquote ++ responseRequiredLabel cfg ++ dquote)%string
    with (searchQuery cfg).
  destruct (remote env (search_issuesAndPullRequests (searchQuery cfg) "updated" "asc" 30) s1)
    as [[items | e] s2]; simpl.
  - set (thr := newDate (local env date_getTime s1
                         - daysUntilClose cfg * 24 * 60 * 60 * 1000)).
    destruct (filterAsync_isCloseable_trace env cfg thr items s2)
      as (Hs2 & considered & rest & Hi & Hl2).
    destruct (run env (filterAsync (isCloseable cfg thr) items) s2) as [[[l | e] s3] t2];
      unfold trace in *; simpl in *.
    + pose proof (sendsOnly_trace env quiet _ s3 (closing_quiet cfg l)) as Hq3.
      destruct (run env (forOf l _) s3) as [[res s4] t3]. unfold trace in *; simpl in *.
      destruct (filter_quiet t3 Hq3) as [Hs3 Hl3].
      rewrite !filter_app. simpl. rewrite !filter_app, Hs1, Hs2, Hs3, Hl1, Hl2, Hl3.
      split; [reflexivity |]. intros items' Heq. injection Heq as <-.
      rewrite app_nil_r. split.
      * exists considered, rest. split; [exact Hi | reflexivity].
      * intros Hlen. simpl. rewrite length_map. rewrite Hi, length_app in Hlen. lia.
    + rewrite !filter_app. simpl. rewrite Hs1, Hs2, Hl1, Hl2.
      split; [reflexivity |]. intros items' Heq. injection Heq as <-. split.
      * exists considered, rest. split; [exact Hi | reflexivity].
      * intros Hlen. simpl. rewrite length_map. rewrite Hi, length_app in Hlen. lia.
  - rewrite !filter_app. simpl. rewrite Hs1, Hl1.
    split; [reflexivity |]. intros items' Heq. discriminate.
Qed.

(** The sweep of the scenario reads the events of the one issue found. *)
Lemma sweep_searches_one_page_witness :
  (length (filter isListEvents
             (trace (run (tracker (world_open (T0 + 15 * day))) (sweep cfg_full) marked)))
   <= 30)%nat.
Proof.
  apply (proj2 (sweep_searches_one_page (tracker (world_open (T0 + 15 * day)))
                  cfg_full marked) [ {| number := 7 |} ] eq_refl).
  simpl. lia.
Defined.

(** One more request of the run in the goal is answered. *)
Ltac answer :=
  match goal with
  | |- context [remote ?e ?r ?s] =>
      let x := fresh "x" in
      let s' := fresh "s" in
      destruct (remote e r s) as [[x | x] s']; simpl
  end.

(* ===================================================================== *)
(** ** Closing an issue *)
(* ===================================================================== *)

(** C8.  [close] posts the close comment first, when one is configured, and
    sets the state to closed with the reason inactivity once the comment call
    has returned; a rejected comment call ends the close there.  Without a
    configured comment the state change is the only request. *)
Theorem close_comments_then_closes {S : Type} (env : Env S) (cfg : Config)
    (issue : Issue) (s : S) :
  (truthy (closeComment cfg) = false ->
   trace (run env (close cfg issue) s)
   = [issues_update issue "closed" (Some "inactivity")])
  /\ (forall body, closeComment cfg = Some body -> body <> EmptyString ->
      (forall s1, remote env (issues_createComment issue body) s = (Ok tt, s1) ->
         trace (run env (close cfg issue) s)
         = [issues_createComment issue body;
            issues_update issue "closed" (Some "inactivity")])
      /\ (forall e s1, remote env (issues_createComment issue body) s = (Err e, s1) ->
            run env (close cfg issue) s = (Err e, s1, [issues_createComment issue body]))).
Proof.
  unfold close. split.
  - intros Hc. destruct (closeComment cfg) as [[| c r] |]; try discriminate; simpl;
      destruct (remote env _ s) as [[x | e] s1]; reflexivity.
  - intros body Hb Hne. rewrite Hb. destruct body as [| c r]; [contradiction |].
    split.
    + intros s1 H1. simpl. rewrite H1. simpl.
      destruct (remote env _ s1) as [[x | e] s2]; reflexivity.
    + intros e s1 H1. simpl. rewrite H1. reflexivity.
Qed.

(** In the scenario the comment is posted, then the issue is closed. *)
Lemma close_comments_then_closes_witness :
  trace (run (tracker (world_open (T0 + 15 * day))) (close cfg_full issue7) marked)
  = [issues_createComment issue7 "Closed for lack of a response";
     issues_update issue7 "closed" (Some "inactivity")].
Proof.
  apply (proj1 (proj2 (close_comments_then_closes (tracker (world_open (T0 + 15 * day)))
                         cfg_full issue7 marked)
                 "Closed for lack of a response" eq_refl ltac:(discriminate))
           marked eq_refl).
Defined.

(* ===================================================================== *)
(** ** Removing the labels when the author closes the issue *)
(* ===================================================================== *)

Lemma includes_In (l : list string) (x : string) :
  includes l x = true <-> In x l.
Proof.
  unfold includes. rewrite existsb_exists. split.
  - intros (y & Hy & He). apply String.eqb_eq in He. subst y. exact Hy.
  - intros H. exists x. split; [exact H | apply String.eqb_refl].
Qed.

(** C5.  When the sender of the closing event is not the author of the
    issue, [removeLabels] sends no request at all: the labels of the issue
    stay as they are. *)
Theorem removeLabels_other_closer {S : Type} (env : Env S) (cfg : Config) (s : S) :
  login (payload_user (ie_issue (local env context_payload s)))
    <> login (ie_sender (local env context_payload s)) ->
  run env (removeLabels cfg) s = (Ok tt, s, []).
Proof.
  intros Hne. apply String.eqb_neq in Hne. unfold removeLabels.
  destruct (optionalFollowUpLabel cfg) as [[| c r] |]; try reflexivity.
  simpl. destruct (String.eqb (ie_action (local env context_payload s)) "closed");
    simpl; [| reflexivity].
  rewrite Hne. reflexivity.
Qed.

(** Bob closes the issue of alice: both labels stay. *)
Lemma removeLabels_other_closer_witness :
  run (tracker (world_closed bob bob)) (removeLabels cfg_full) marked_both
  = (Ok tt, marked_both, []).
Proof.
  apply (removeLabels_other_closer (tracker (world_closed bob bob)) cfg_full marked_both).
  simpl. discriminate.
Defined.




(* ===================================================================== *)
(** ** Unmarking an issue when its author comments *)
(* ===================================================================== *)

(** C9.  Without an event payload ([GITHUB_EVENT_PATH] undefined or empty)
    [unmark] throws; it has sent no request by then, and sends none after:
    the error goes to the caller and nothing is tried again. *)
Theorem unmark_without_payload {S : Type} (env : Env S) (cfg : Config) (s : S) :
  truthy (local env env_GITHUB_EVENT_PATH s) = false ->
  run env (unmark cfg) s = (Err "GITHUB_EVENT_PATH is not defined", s, []).
Proof.
  intros H. unfold unmark, readPayload. simpl.
  destruct (local env env_GITHUB_EVENT_PATH s) as [[| c r] |];
    try reflexivity; discriminate.
Qed.

Lemma unmark_without_payload_witness :
  run (tracker (world_open T0)) (unmark cfg_full) marked
  = (Err "GITHUB_EVENT_PATH is not defined", marked, []).
Proof.
  apply (unmark_without_payload (tracker (world_open T0)) cfg_full marked).
  reflexivity.
Defined.

Lemma login_is_Some (a : option User) (b : string) :
  login_is a b = true <-> option_map login a = Some b.
Proof.
  destruct a as [u |]; simpl.
  - rewrite String.eqb_eq. split; congruence.
  - split; discriminate.
Qed.

Lemma unmarkable_test (cfg : Config) (payload : IssueCommentEvent)
    (info : IssueInfo) (labels : list Label) :
  includes (map name labels) (responseRequiredLabel cfg)
  && login_is (info_user info) (login (comment_user (ice_comment payload))) = true
  <-> unmarkable cfg payload info labels.
Proof.
  unfold unmarkable. rewrite andb_true_iff, includes_In, login_is_Some. reflexivity.
Qed.

(** The run of [unmark] is its three reads, followed, when the comment
    answers the request, by the run of [unmarking]. *)
Lemma unmark_run {S : Type} (env : Env S) (cfg : Config) (s s3 : S) (path : string)
    (payload : IssueCommentEvent) (info : IssueInfo) (labels : list Label) :
  unmarkReads env s path payload info labels s3 ->
  let issue := payload_issue (ice_repository payload) (ice_issue payload) in
  let reads := [fs_readFile path; issues_get issue; issues_listLabelsOnIssue issue] in
  (unmarkable cfg payload info labels ->
   run env (unmark cfg) s =
   let '(res, s', t) := run env (unmarking cfg issue info) s3 in
   (res, s', (reads ++ t)%list))
  /\ (~ unmarkable cfg payload info labels ->
      run env (unmark cfg) s = (Ok tt, s3, reads)).
Proof.
  intros (Hp & Hne & text & s1 & s2 & Hf & Hj & Hg & Hl) issue reads.
  destruct path as [| c r]; [contradiction |].
  assert (Hrun : run env (unmark cfg) s =
          let '(res, s', t) :=
            run env (if includes (map name labels) (responseRequiredLabel cfg)
                        && login_is (info_user info)
                             (login (comment_user (ice_comment payload)))
                     then unmarking cfg issue info else Ret tt) s3 in
          (res, s', (reads ++ t)%list)).
  { unfold unmark, readPayload, hasResponseRequiredLabel. simpl.
    rewrite Hp. simpl. rewrite Hf. simpl. rewrite Hj. simpl.
    rewrite Hg. simpl. rewrite Hl. simpl.
    destruct (includes (map name labels) (responseRequiredLabel cfg)
              && login_is (info_user info) (login (comment_user (ice_comment payload))));
      [| reflexivity].
    unfold unmarking.
    destruct (run env _ s3) as [[res s'] t]. reflexivity. }
  split; intros Hu.
  - apply unmarkable_test in Hu. rewrite Hrun, Hu. reflexivity.
  - rewrite Hrun.
    destruct (includes _ _ && login_is _ _) eqn:Ht.
    + exfalso. apply Hu, unmarkable_test, Ht.
    + reflexivity.
Qed.

Lemma unmarking_first {S : Type} (env : Env S) (cfg : Config) (issue : Issue)
    (info : IssueInfo) (s : S) :
  exists t, trace (run env (unmarking cfg issue info) s)
            = issues_removeLabel issue (responseRequiredLabel cfg) :: t.
Proof.
  unfold unmarking. simpl.
  destruct (remote env (issues_removeLabel issue (responseRequiredLabel cfg)) s) as [x s1].
  destruct (run env _ s1) as [[res s2] t]. eexists. reflexivity.
Qed.

(** C3.  After the reads of [unmark], the removal of the response-required
    label is requested if and only if the issue carries that label and the
    commenter is the author of the issue; otherwise [unmark] returns having
    sent its three reads and nothing else. *)
Theorem unmark_removes_iff_unmarkable {S : Type} (env : Env S) (cfg : Config)
    (s s3 : S) (path : string) (payload : IssueCommentEvent) (info : IssueInfo)
    (labels : list Label) :
  unmarkReads env s path payload info labels s3 ->
  let issue := payload_issue (ice_repository payload) (ice_issue payload) in
  (In (issues_removeLabel issue (responseRequiredLabel cfg))
      (trace (run env (unmark cfg) s))
   <-> In (responseRequiredLabel cfg) (map name labels)
       /\ option_map login (info_user info)
          = Some (login (comment_user (ice_comment payload))))
  /\ (~ (In (responseRequiredLabel cfg) (map name labels)
         /\ option_map login (info_user info)
            = Some (login (comment_user (ice_comment payload)))) ->
      run env (unmark cfg) s
      = (Ok tt, s3, [fs_readFile path; issues_get issue; issues_listLabelsOnIssue issue])).
Proof.
  intros Hreads issue.
  destruct (unmark_run env cfg s s3 path payload info labels Hreads) as [Hyes Hno].
  fold issue in Hyes, Hno. split; [| exact Hno]. split.
  - intros Hin.
    destruct (includes (map name labels) (responseRequiredLabel cfg)
              && login_is (info_user info) (login (comment_user (ice_comment payload))))
      eqn:Ht.
    + apply unmarkable_test in Ht. exact Ht.
    + exfalso. rewrite Hno in Hin.
      * unfold trace in Hin. simpl in Hin.
        destruct Hin as [Hin | [Hin | [Hin | []]]]; discriminate Hin.
      * intros Hu. apply unmarkable_test in Hu. congruence.
  - intros Hu. rewrite (Hyes Hu).
    destruct (unmarking_first env cfg issue info s3) as (t & Ht).
    destruct (run env (unmarking cfg issue info) s3) as [[res s'] t'].
    unfold trace in *. simpl in *. subst t'. do 3 right. left. reflexivity.
Qed.

Lemma tracker_unmarkReads (closer sender : User) (l : Labels) :
  unmarkReads (tracker (world_closed closer sender)) l "/github/workflow/event.json"
    {| ice_repository := demo; ice_issue := alice_issue;
       ice_comment := {| comment_user := sender; comment_body := "done" |} |}
    {| info_user := Some alice; info_state := "closed"; info_closed_by := Some closer |}
    (map Build_Label (on_issue l)) l.
Proof.
  split; [reflexivity |]. split; [discriminate |].
  exists "{ }", l, l. repeat split.
Qed.

(** Alice answers on her marked issue: the label is removed.  *)
Lemma unmark_removes_iff_unmarkable_witness :
  In (issues_removeLabel issue7 "response-required")
     (trace (run (tracker (world_closed bob alice)) (unmark cfg_full) marked)).
Proof.
  apply (proj1 (unmark_removes_iff_unmarkable (tracker (world_closed bob alice)) cfg_full
                  marked marked _ _ _ _ (tracker_unmarkReads bob alice marked))).
  split.
  - simpl. right. left. reflexivity.
  - reflexivity.
Defined.

Lemma reopenIfClosedByOther_run {S : Type} (env : Env S) (issue : Issue)
    (info : IssueInfo) (author : string) (s : S) :
  option_map login (info_user info) = Some author ->
  (info_state info = "closed"
   /\ option_map login (info_closed_by info) <> option_map login (info_user info) ->
   outcome (run env (reopenIfClosedByOther issue info) s) = Ok tt
   /\ trace (run env (reopenIfClosedByOther issue info) s)
      = [issues_update issue "open" None])
  /\ (~ (info_state info = "closed"
         /\ option_map login (info_closed_by info) <> option_map login (info_user info)) ->
      trace (run env (reopenIfClosedByOther issue info) s) = []).
Proof.
  intros Ha. unfold reopenIfClosedByOther.
  destruct (info_user info) as [u |]; [| discriminate]. simpl in Ha.
  injection Ha as Ha.
  destruct (String.eqb (info_state info) "closed") eqn:Hs.
  - apply String.eqb_eq in Hs.
    destruct (login_is (info_closed_by info) (login u)) eqn:Hc; simpl.
    + apply login_is_Some in Hc. split.
      * intros [_ Hne]. contradiction.
      * reflexivity.
    + split.
      * intros _. answer; split; reflexivity.
      * intros Hn. exfalso. apply Hn. split; [exact Hs |].
        intros Heq. apply login_is_Some in Heq. congruence.
  - apply String.eqb_neq in Hs. split.
    + intros [Hc _]. contradiction.
    + reflexivity.
Qed.





(** C10.  In an unmark whose comment answers the request, with a follow-up
    label configured and no colour for it, a label is only ever created as the
    follow-up label with the colour ffffff, and it is created so when, after
    the removal of the response-required label, the service does not have it. *)
Theorem unmark_followUp_default_color {S : Type} (env : Env S) (cfg : Config)
    (s s3 : S) (path : string) (payload : IssueCommentEvent) (info : IssueInfo)
    (labels : list Label) (followUp : string) :
  unmarkReads env s path payload info labels s3 ->
  unmarkable cfg payload info labels ->
  optionalFollowUpLabel cfg = Some followUp ->
  followUp <> EmptyString ->
  truthy (optionalFollowUpLabelColor cfg) = false ->
  let issue := payload_issue (ice_repository payload) (ice_issue payload) in
  (forall r l color,
     In (issues_createLabel r l color) (trace (run env (unmark cfg) s)) ->
     r = config_repo cfg /\ l = followUp /\ color = "ffffff")
  /\ (forall s4 e s5,
        remote env (issues_removeLabel issue (responseRequiredLabel cfg)) s3 = (Ok tt, s4) ->
        remote env (issues_getLabel (config_repo cfg) followUp) s4 = (Err e, s5) ->
        In (issues_createLabel (config_repo cfg) followUp "ffffff")
           (trace (run env (unmark cfg) s))).
Proof.
  intros Hreads Hu Hf Hne Hcolor issue.
  destruct (unmark_run env cfg s s3 path payload info labels Hreads) as [Hyes _].
  fold issue in Hyes. rewrite (Hyes Hu). clear Hyes.
  assert (Hdefault : orElse (optionalFollowUpLabelColor cfg) "ffffff" = "ffffff").
  { destruct (optionalFollowUpLabelColor cfg) as [[| c r] |];
      try reflexivity; discriminate. }
  unfold unmarking, reopenIfClosedByOther. rewrite Hf, Hdefault.
  destruct followUp as [| c r]; [contradiction |]. split.
  - intros r0 l color. simpl. repeat answer;
      destruct (String.eqb (info_state info) "closed");
      destruct (info_user info) as [u |];
      try destruct (login_is (info_closed_by info) (login u));
      simpl; repeat answer; unfold trace; simpl; intros Hin;
      repeat (destruct Hin as [Hin | Hin]; try discriminate Hin);
      try contradiction;
      injection Hin as <- <- <-; repeat split.
  - intros s4 e s5 Hr Hg. simpl. rewrite Hr. simpl. rewrite Hg. simpl.
    repeat answer;
      destruct (String.eqb (info_state info) "closed");
      destruct (info_user info) as [u |];
      try destruct (login_is (info_closed_by info) (login u));
      simpl; repeat answer; unfold trace; simpl; tauto.
Qed.

(** In the scenario the repository has no follow-up label yet: it is created
    with the colour ffffff. *)
Lemma unmark_followUp_default_color_witness :
  In (issues_createLabel (config_repo cfg_full) "follow-up" "ffffff")
     (trace (run (tracker (world_closed bob alice)) (unmark cfg_full) marked)).
Proof.
  apply (proj2 (unmark_followUp_default_color (tracker (world_closed bob alice))
                  cfg_full marked marked _ _ _ _ "follow-up"
                  (tracker_unmarkReads bob alice marked)
                  (conj (or_intror (or_introl eq_refl)) eq_refl)
                  eq_refl ltac:(discriminate) eq_refl)
           {| on_issue := ["bug"]; in_repo := ["bug"; "response-required"] |}
           "Not Found"
           {| on_issue := ["bug"]; in_repo := ["bug"; "response-required"] |}
           eq_refl eq_refl).
Defined.

(* ===================================================================== *)
(** ** Further properties: labels of the repository, closing *)
(* ===================================================================== *)

(** X1.  [ensureLabelExists] never throws.  It asks for the label; when that
    call is accepted this is all it sends, and when it is rejected, for
    whatever reason, it asks for the creation of the label with the given name
    and colour in the configured repository, and does not wait for the answer:
    a rejected creation is not reported either. *)
Theorem ensureLabelExists_never_throws {S : Type} (env : Env S) (cfg : Config)
    (label_name color : string) (s : S) :
  outcome (run env (ensureLabelExists cfg label_name color) s) = Ok tt
  /\ (forall l s1,
        remote env (issues_getLabel (config_repo cfg) label_name) s = (Ok l, s1) ->
        run env (ensureLabelExists cfg label_name color) s
        = (Ok tt, s1, [issues_getLabel (config_repo cfg) label_name]))
  /\ (forall e s1,
        remote env (issues_getLabel (config_repo cfg) label_name) s = (Err e, s1) ->
        run env (ensureLabelExists cfg label_name color) s
        = (Ok tt, snd (remote env (issues_createLabel (config_repo cfg) label_name color) s1),
           [issues_getLabel (config_repo cfg) label_name;
            issues_createLabel (config_repo cfg) label_name color])).
Proof.
  unfold ensureLabelExists, outcome. simpl. repeat split.
  - destruct (remote env (issues_getLabel _ _) s) as [[l | e] s1]; simpl.
    + reflexivity.
    + destruct (remote env _ s1) as [x s2]. reflexivity.
  - intros l s1 H. rewrite H. reflexivity.
  - intros e s1 H. rewrite H. simpl.
    destruct (remote env _ s1) as [x s2]. reflexivity.
Qed.

(** The repository of the scenario has no follow-up label: it is created. *)
Lemma ensureLabelExists_never_throws_witness :
  run (tracker (world_open T0)) (ensureLabelExists cfg_full "follow-up" "ffffff") marked
  = (Ok tt,
     {| on_issue := ["bug"; "response-required"];
        in_repo := ["follow-up"; "bug"; "response-required"] |},
     [issues_getLabel (config_repo cfg_full) "follow-up";
      issues_createLabel (config_repo cfg_full) "follow-up" "ffffff"]).
Proof.
  apply (proj2 (proj2 (ensureLabelExists_never_throws (tracker (world_open T0)) cfg_full
                         "follow-up" "ffffff" marked)) "Not Found" marked eq_refl).
Defined.

(** X2.  [close] reports the outcome of the state change: when no comment is
    configured, or once the comment call has been accepted, [close] returns or
    throws as the update of the issue is accepted or rejected. *)
Theorem close_reports_update {S : Type} (env : Env S) (cfg : Config)
    (issue : Issue) (s : S) :
  (truthy (closeComment cfg) = false ->
   outcome (run env (close cfg issue) s)
   = fst (remote env (issues_update issue "closed" (Some "inactivity")) s))
  /\ (forall body s1,
        closeComment cfg = Some body -> body <> EmptyString ->
        remote env (issues_createComment issue body) s = (Ok tt, s1) ->
        outcome (run env (close cfg issue) s)
        = fst (remote env (issues_update issue "closed" (Some "inactivity")) s1)).
Proof.
  unfold close, outcome. split.
  - intros Hc. destruct (closeComment cfg) as [[| c r] |]; try discriminate; simpl;
      destruct (remote env _ s) as [[[] | e] s1]; reflexivity.
  - intros body s1 Hb Hne H1. rewrite Hb. destruct body as [| c r]; [contradiction |].
    simpl. rewrite H1. simpl.
    destruct (remote env _ s1) as [[[] | e] s2]; reflexivity.
Qed.

(** Without write access the comment-free close of the scenario is refused,
    and [close] throws the error of the update. *)
Lemma close_reports_update_witness :
  outcome (run (tracker_refusing (world_open T0) refuse_mutations)
             (close cfg_plain issue7) marked)
  = Err "Resource not accessible by integration".
Proof.
  apply (proj1 (close_reports_update (tracker_refusing (world_open T0) refuse_mutations)
                  cfg_plain issue7 marked) eq_refl).
Defined.

(* ===================================================================== *)
(** ** Further properties: what a sweep closes *)
(* ===================================================================== *)

Lemma sendsOnly_filterAsync {A : Type} (P : Request -> Prop) (f : A -> Prog bool)
    (l : list A) :
  (forall a, sendsOnly P (f a)) -> sendsOnly P (filterAsync f l).
Proof.
  intros H. induction l as [| x l IH]; simpl.
  - exact I.
  - apply sendsOnly_bind; [apply H |]. intros keep.
    apply sendsOnly_bind; [exact IH | intros rest; exact I].
Qed.

Lemma filter_none {A : Type} (f : A -> bool) (l : list A) :
  Forall (fun x => f x = false) l -> filter f l = [].
Proof.
  induction 1 as [| x l Hx _ IH]; simpl.
  - reflexivity.
  - rewrite Hx. exact IH.
Qed.

Lemma filter_all {A : Type} (f : A -> bool) (l : list A) :
  (forall x, In x l -> f x = true) -> filter f l = l.
Proof.
  induction l as [| x l IH]; intros H; simpl.
  - reflexivity.
  - rewrite (H x (or_introl eq_refl)). f_equal. apply IH.
    intros y Hy. apply H. right. exact Hy.
Qed.

Lemma notClosing_filter (t : list Request) :
  Forall notClosing t -> filter isUpdate t = [] /\ filter isComment t = [].
Proof.
  intros H. split; apply filter_none; eapply Forall_impl; try exact H;
    intros r [Hu Hc]; assumption.
Qed.

Lemma ensureLabelExists_notClosing (cfg : Config) (label_name color : string) :
  sendsOnly notClosing (ensureLabelExists cfg label_name color).
Proof.
  unfold ensureLabelExists. apply sendsOnly_tryCatch.
  - apply sendsOnly_bind; [| intros; exact I].
    apply sendsOnly_call. split; reflexivity.
  - intros e. apply sendsOnly_start. split; reflexivity.
Qed.

Lemma getCloseableIssues_notClosing (cfg : Config) :
  sendsOnly notClosing (getCloseableIssues cfg).
Proof.
  unfold getCloseableIssues, since. simpl. intros now.
  split; [split; reflexivity |]. intros [items | e]; simpl; [| exact I].
  apply sendsOnly_filterAsync. intros i.
  unfold isCloseable, findLastLabeledEvent. simpl.
  split; [split; reflexivity |]. intros [page | e]; simpl; [| exact I].
  split; [split; reflexivity |]. intros [h | e]; simpl; [| exact I].
  destruct (find (isLabeledEvent cfg) (rev h)) as [e |]; [| exact I].
  destruct (newDate (created_at e)); [| exact I].
  destruct (newDate _); exact I.
Qed.

(** The closes of a sweep without a close comment: one update per issue, in
    order, whatever the answers. *)
Lemma closing_plain_run {S : Type} (env : Env S) (cfg : Config)
    (l : list RestIssue) (s : S) :
  truthy (closeComment cfg) = false ->
  outcome (run env (forOf l (fun issue =>
             spawn (close cfg (issue_of (config_repo cfg) (number issue))))) s) = Ok tt
  /\ trace (run env (forOf l (fun issue =>
              spawn (close cfg (issue_of (config_repo cfg) (number issue))))) s)
     = map (closing_update cfg) l.
Proof.
  intros Hc. revert s. induction l as [| i l IH]; intros s.
  - split; reflexivity.
  - cbn [forOf]. rewrite run_bind.
    assert (Hi : exists s1,
               run env (spawn (close cfg (issue_of (config_repo cfg) (number i)))) s
               = (Ok tt, s1, [closing_update cfg i])).
    { unfold spawn, close, closing_update.
      destruct (closeComment cfg) as [[| c r] |]; try discriminate; simpl;
        destruct (remote env _ s) as [[[] | e] s1]; simpl; eauto. }
    destruct Hi as (s1 & ->). destruct (IH s1) as [Ho Ht].
    destruct (run env (forOf l _) s1) as [[res s2] t].
    unfold outcome, trace in *. simpl in *. subst. split; reflexivity.
Qed.

(** The closes of a sweep with a close comment: one comment per issue, in
    order; the only updates are closes of these issues. *)
Lemma closing_comment_run {S : Type} (env : Env S) (cfg : Config)
    (l : list RestIssue) (c : ascii) (b : string) (s : S) :
  closeComment cfg = Some (String c b) ->
  outcome (run env (forOf l (fun issue =>
             spawn (close cfg (issue_of (config_repo cfg) (number issue))))) s) = Ok tt
  /\ filter isComment
       (trace (run env (forOf l (fun issue =>
                 spawn (close cfg (issue_of (config_repo cfg) (number issue))))) s))
     = map (fun i => issues_createComment (issue_of (config_repo cfg) (number i))
                       (String c b)) l
  /\ forall r,
       In r (trace (run env (forOf l (fun issue =>
                      spawn (close cfg (issue_of (config_repo cfg) (number issue))))) s)) ->
       isUpdate r = true -> exists i, In i l /\ r = closing_update cfg i.
Proof.
  intros Hc. revert s. induction l as [| i l IH]; intros s.
  - repeat split. intros r [].
  - cbn [forOf]. rewrite run_bind.
    assert (Hi : exists s1 t,
               run env (spawn (close cfg (issue_of (config_repo cfg) (number i)))) s
               = (Ok tt, s1,
                  issues_createComment (issue_of (config_repo cfg) (number i)) (String c b)
                  :: t)
               /\ (t = [] \/ t = [closing_update cfg i])).
    { unfold spawn, close, closing_update. rewrite Hc. simpl.
      destruct (remote env _ s) as [[[] | e] s1]; simpl.
      - destruct (remote env _ s1) as [[[] | e] s2]; simpl; eauto.
      - eauto. }
    destruct Hi as (s1 & t1 & -> & Ht1). destruct (IH s1) as (Ho & Hm & Hu).
    destruct (run env (forOf l _) s1) as [[res s2] t].
    unfold outcome, trace in *. simpl in *. subst res. split; [reflexivity |].
    destruct Ht1 as [-> | ->]; simpl; rewrite Hm; (split; [reflexivity |]);
      intros r Hin Hr.
    + destruct Hin as [<- | Hin]; [discriminate Hr |].
      destruct (Hu r Hin Hr) as (j & Hj & ->). exists j. split; [right; exact Hj | reflexivity].
    + destruct Hin as [<- | [<- | Hin]]; [discriminate Hr | |].
      * exists i. split; [left; reflexivity | reflexivity].
      * destruct (Hu r Hin Hr) as (j & Hj & ->).
        exists j. split; [right; exact Hj | reflexivity].
Qed.

(** The run of a sweep, split at [getCloseableIssues]. *)
Lemma sweep_run {S : Type} (env : Env S) (cfg : Config) (s : S) :
  exists s1 t1 res s2 t2,
    run env (ensureLabelExists cfg (responseRequiredLabel cfg)
               (responseRequiredColor cfg)) s = (Ok tt, s1, t1)
    /\ run env (getCloseableIssues cfg) s1 = (res, s2, t2)
    /\ Forall notClosing t1 /\ Forall notClosing t2
    /\ run env (sweep cfg) s
       = match res with
         | Ok closeable =>
             let '(y, s3, t3) :=
               run env (forOf closeable (fun issue =>
                 spawn (close cfg (issue_of (config_repo cfg) (number issue))))) s2 in
             (y, s3, (t1 ++ t2 ++ t3)%list)
         | Err e => (Err e, s2, (t1 ++ t2)%list)
         end.
Proof.
  pose proof (sendsOnly_trace env notClosing _ s
                (ensureLabelExists_notClosing cfg (responseRequiredLabel cfg)
                   (responseRequiredColor cfg))) as H1.
  destruct (ensureLabelExists_run env cfg (responseRequiredLabel cfg)
              (responseRequiredColor cfg) s) as (s1 & t1 & He & _).
  rewrite He in H1. unfold trace in H1. simpl in H1.
  pose proof (sendsOnly_trace env notClosing _ s1 (getCloseableIssues_notClosing cfg)) as H2.
  destruct (run env (getCloseableIssues cfg) s1) as [[res s2] t2] eqn:Hg.
  unfold trace in H2. simpl in H2.
  exists s1, t1, res, s2, t2.
  split; [exact He |]. split; [exact Hg |]. split; [exact H1 |]. split; [exact H2 |].
  unfold sweep. rewrite run_bind, He. cbv beta iota. rewrite run_bind.
  rewrite Hg.
  destruct res as [closeable | e].
  - destruct (run env (forOf closeable _) s2) as [[y s3] t3]. reflexivity.
  - reflexivity.
Qed.

(** X3.  A sweep closes what [getCloseableIssues] returns, in that order, and
    returns normally whatever the closes are answered.  Without a close
    comment its updates are exactly one close per returned issue and it posts
    no comment; with one, it posts the comment once on each returned issue,
    and every update it sends is the close of a returned issue. *)
Theorem sweep_closes_the_closeable {S : Type} (env : Env S) (cfg : Config) (s : S)
    (closeable : list RestIssue) :
  outcome (run env (getCloseableIssues cfg)
             (final (run env (ensureLabelExists cfg (responseRequiredLabel cfg)
                                (responseRequiredColor cfg)) s)))
    = Ok closeable ->
  outcome (run env (sweep cfg) s) = Ok tt
  /\ (truthy (closeComment cfg) = false ->
      filter isUpdate (trace (run env (sweep cfg) s)) = map (closing_update cfg) closeable
      /\ filter isComment (trace (run env (sweep cfg) s)) = [])
  /\ (forall body, closeComment cfg = Some body -> body <> EmptyString ->
      filter isComment (trace (run env (sweep cfg) s))
      = map (fun i => issues_createComment (issue_of (config_repo cfg) (number i)) body)
            closeable
      /\ forall r, In r (trace (run env (sweep cfg) s)) -> isUpdate r = true ->
           exists i, In i closeable /\ r = closing_update cfg i).
Proof.
  destruct (sweep_run env cfg s) as (s1 & t1 & res & s2 & t2 & He & Hg & H1 & H2 & ->).
  rewrite He. unfold final. cbn [fst snd]. rewrite Hg. unfold outcome at 1.
  cbn [fst snd]. intros ->.
  destruct (notClosing_filter t1 H1) as [Hu1 Hc1].
  destruct (notClosing_filter t2 H2) as [Hu2 Hc2].
  split; [| split].
  - destruct (closeComment cfg) as [[| c b] |] eqn:Hc.
    + destruct (closing_plain_run env cfg closeable s2) as [Ho _]; [rewrite Hc; reflexivity |].
      destruct (run env (forOf closeable _) s2) as [[y s3] t3]. exact Ho.
    + destruct (closing_comment_run env cfg closeable c b s2 Hc) as [Ho _].
      destruct (run env (forOf closeable _) s2) as [[y s3] t3]. exact Ho.
    + destruct (closing_plain_run env cfg closeable s2) as [Ho _]; [rewrite Hc; reflexivity |].
      destruct (run env (forOf closeable _) s2) as [[y s3] t3]. exact Ho.
  - intros Hc. destruct (closing_plain_run env cfg closeable s2 Hc) as [_ Ht].
    destruct (run env (forOf closeable _) s2) as [[y s3] t3].
    unfold trace in *. simpl in *. subst t3.
    rewrite !filter_app, Hu1, Hu2, Hc1, Hc2. simpl. split.
    + apply filter_all. intros r Hr. apply in_map_iff in Hr.
      destruct Hr as (i & <- & _). reflexivity.
    + apply filter_none. apply Forall_forall. intros r Hr. apply in_map_iff in Hr.
      destruct Hr as (i & <- & _). reflexivity.
  - intros body Hc Hne. destruct body as [| c b]; [contradiction |].
    destruct (closing_comment_run env cfg closeable c b s2 Hc) as (_ & Hm & Hu).
    destruct (run env (forOf closeable _) s2) as [[y s3] t3].
    unfold trace in *. simpl in *.
    rewrite !filter_app, Hc1, Hc2, Hm. split; [reflexivity |].
    intros r Hin Hr. apply in_app_or in Hin. destruct Hin as [Hin | Hin].
    + exfalso. rewrite Forall_forall in H1. destruct (H1 r Hin) as [Hf _]. congruence.
    + apply in_app_or in Hin. destruct Hin as [Hin | Hin].
      * exfalso. rewrite Forall_forall in H2. destruct (H2 r Hin) as [Hf _]. congruence.
      * apply Hu; assumption.
Qed.

(** The sweep of the scenario, without a close comment, closes issue 7. *)
Lemma sweep_closes_the_closeable_witness :
  filter isUpdate (trace (run (tracker (world_open (T0 + 15 * day))) (sweep cfg_plain) marked))
  = [closing_update cfg_plain {| number := 7 |}].
Proof.
  apply (proj1 (proj2 (sweep_closes_the_closeable (tracker (world_open (T0 + 15 * day)))
                         cfg_plain marked [ {| number := 7 |} ] eq_refl)) eq_refl).
Defined.

Lemma sweep_failure {S : Type} (env : Env S) (cfg : Config) (s : S) (e : Error) :
  outcome (run env (getCloseableIssues cfg)
             (final (run env (ensureLabelExists cfg (responseRequiredLabel cfg)
                                (responseRequiredColor cfg)) s)))
    = Err e ->
  outcome (run env (sweep cfg) s) = Err e
  /\ filter isUpdate (trace (run env (sweep cfg) s)) = []
  /\ filter isComment (trace (run env (sweep cfg) s)) = [].
Proof.
  destruct (sweep_run env cfg s) as (s1 & t1 & res & s2 & t2 & He & Hg & H1 & H2 & ->).
  rewrite He. unfold final. cbn [fst snd]. rewrite Hg. unfold outcome at 1.
  cbn [fst snd]. intros ->.
  destruct (notClosing_filter t1 H1) as [Hu1 Hc1].
  destruct (notClosing_filter t2 H2) as [Hu2 Hc2].
  unfold outcome, trace. simpl. rewrite !filter_app, Hu1, Hu2, Hc1, Hc2.
  repeat split.
Qed.

(** X4.  When [getCloseableIssues] throws, the sweep throws the same error and
    has neither commented on nor updated any issue. *)
Theorem sweep_throws_without_closing {S : Type} (env : Env S) (cfg : Config) (s : S)
    (e : Error) :
  outcome (run env (getCloseableIssues cfg)
             (final (run env (ensureLabelExists cfg (responseRequiredLabel cfg)
                                (responseRequiredColor cfg)) s)))
    = Err e ->
  outcome (run env (sweep cfg) s) = Err e
  /\ filter isUpdate (trace (run env (sweep cfg) s)) = []
  /\ filter isComment (trace (run env (sweep cfg) s)) = [].
Proof. apply sweep_failure. Qed.

(** Against a service that refuses everything the sweep fails at the search. *)
Lemma sweep_throws_without_closing_witness :
  outcome (run (tracker_refusing (world_open (T0 + 15 * day)) refuse_all)
             (sweep cfg_full) marked)
  = Err "Resource not accessible by integration".
Proof.
  apply (sweep_throws_without_closing
           (tracker_refusing (world_open (T0 + 15 * day)) refuse_all) cfg_full marked
           "Resource not accessible by integration" eq_refl).
Defined.

Lemma filterAsync_isCloseable_unreadable {S : Type} (env : Env S) (cfg : Config)
    (thr : Date) (history : Z -> list LabeledEvent) (before after : list RestIssue)
    (i : RestIssue) (e : Error) (s : S) :
  (forall j, In j before ->
     reportsHistory env (issue_of (config_repo cfg) (number j)) (history (number j))) ->
  (forall st, fst (remote env (issues_listEvents (issue_of (config_repo cfg) (number i)) 100) st)
              = Err e) ->
  exists e',
    outcome (run env (filterAsync (isCloseable cfg thr) (before ++ i :: after)) s) = Err e'.
Proof.
  intros Hb Hi. revert s. induction before as [| j before IH]; intros s.
  - cbn [app filterAsync]. rewrite run_bind.
    unfold isCloseable, findLastLabeledEvent. simpl.
    specialize (Hi s). destruct (remote env _ s) as [x s1]. simpl in Hi. subst x.
    exists e. reflexivity.
  - cbn [app filterAsync]. rewrite run_bind.
    destruct (isCloseable_run env cfg thr j _ s (Hb j (or_introl eq_refl)))
      as (s1 & t1 & ->).
    destruct (judge cfg thr (history (number j))) as [keep | e0];
      [| exists e0; reflexivity].
    rewrite run_bind.
    destruct (IH (fun k Hk => Hb k (or_intror Hk)) s1) as (e' & He').
    destruct (run env (filterAsync (isCloseable cfg thr) (before ++ i :: after)) s1)
      as [[[l | e1] s2] t2]; unfold outcome in *; simpl in *.
    + discriminate.
    + exists e1. reflexivity.
Qed.

(** X5.  One unreadable history stops the whole sweep: when the events of a
    found issue cannot be listed, while those of the issues found before it
    can be read, the sweep throws and closes no issue at all, closeable or
    not. *)
Theorem sweep_unreadable_history {S : Type} (env : Env S) (cfg : Config) (s : S)
    (history : Z -> list LabeledEvent) (before after : list RestIssue)
    (i : RestIssue) (e : Error) :
  fst (remote env (search_issuesAndPullRequests (searchQuery cfg) "updated" "asc" 30)
         (final (run env (ensureLabelExists cfg (responseRequiredLabel cfg)
                            (responseRequiredColor cfg)) s)))
    = Ok (before ++ i :: after)%list ->
  (forall j, In j before ->
     reportsHistory env (issue_of (config_repo cfg) (number j)) (history (number j))) ->
  (forall st, fst (remote env (issues_listEvents (issue_of (config_repo cfg) (number i)) 100) st)
              = Err e) ->
  (exists e', outcome (run env (sweep cfg) s) = Err e')
  /\ filter isUpdate (trace (run env (sweep cfg) s)) = []
  /\ filter isComment (trace (run env (sweep cfg) s)) = [].
Proof.
  intros Hs Hb Hi.
  cut (exists e', outcome (run env (getCloseableIssues cfg)
                     (final (run env (ensureLabelExists cfg (responseRequiredLabel cfg)
                                        (responseRequiredColor cfg)) s))) = Err e').
  { intros (e' & He'). destruct (sweep_failure env cfg s e' He') as (H1 & H2 & H3).
    split; [exists e'; exact H1 | split; assumption]. }
  set (s1 := final _) in *. unfold getCloseableIssues, since. simpl.
  destruct (remote env _ s1) as [x s2]. simpl in Hs. subst x. simpl.
  destruct (filterAsync_isCloseable_unreadable env cfg
              (newDate (local env date_getTime s1
                        - daysUntilClose cfg * 24 * 60 * 60 * 1000))
              history before after i e s2 Hb Hi) as (e' & Hf).
  destruct (run env (filterAsync _ _) s2) as [[res s3] t3].
  unfold outcome in *. simpl in *. exists e'. exact Hf.
Qed.

(** In the scenario, with the listing of events refused, the closeable issue 7
    is not closed. *)
Lemma sweep_unreadable_history_witness :
  filter isUpdate
    (trace (run (tracker_refusing (world_open (T0 + 15 * day)) refuse_listEvents)
              (sweep cfg_plain) marked))
  = [].
Proof.
  apply (proj1 (proj2 (sweep_unreadable_history
           (tracker_refusing (world_open (T0 + 15 * day)) refuse_listEvents)
           cfg_plain marked history7 [] [] {| number := 7 |}
           "Resource not accessible by integration" eq_refl
           (fun j (H : In j []) => match H with end)
           (fun st => eq_refl)))).
Defined.

Lemma filterAsync_subsequence {S A : Type} (env : Env S) (f : A -> Prog bool)
    (l kept : list A) (s : S) :
  outcome (run env (filterAsync f l) s) = Ok kept -> Subsequence kept l.
Proof.
  revert kept s. induction l as [| x l IH]; intros kept s.
  - unfold outcome. simpl. intros H. injection H as <-. constructor.
  - cbn [filterAsync]. rewrite run_bind.
    destruct (run env (f x) s) as [[[b | e] s1] t1]; [| discriminate].
    rewrite run_bind. pose proof (fun k => IH k s1) as IH1.
    destruct (run env (filterAsync f l) s1) as [[[rest | e] s2] t2]; [| discriminate].
    unfold outcome in *. simpl in *. intros H. injection H as <-.
    destruct b; constructor; apply IH1; reflexivity.
Qed.

(** X6.  Whatever the service answers, the issues [getCloseableIssues]
    returns are issues of the search answer, in the order of that answer
    (oldest update first), none of them added or repeated. *)
Theorem getCloseableIssues_subsequence {S : Type} (env : Env S) (cfg : Config) (s : S)
    (items closeable : list RestIssue) :
  fst (remote env (search_issuesAndPullRequests (searchQuery cfg) "updated" "asc" 30) s)
    = Ok items ->
  outcome (run env (getCloseableIssues cfg) s) = Ok closeable ->
  Subsequence closeable items.
Proof.
  intros Hs. unfold getCloseableIssues, since. simpl.
  destruct (remote env _ s) as [x s1]. simpl in Hs. subst x. simpl.
  intros Hc.
  apply (filterAsync_subsequence env
           (isCloseable cfg (newDate (local env date_getTime s
                                      - daysUntilClose cfg * 24 * 60 * 60 * 1000)))
           items closeable s1).
  destruct (run env (filterAsync _ items) s1) as [[res s2] t2].
  unfold outcome in *. simpl in *. exact Hc.
Qed.

Lemma getCloseableIssues_subsequence_witness :
  exists closeable,
    outcome (run (tracker (world_open (T0 + 15 * day))) (getCloseableIssues cfg_full) marked)
      = Ok closeable
    /\ Subsequence closeable (w_found (world_open (T0 + 15 * day))).
Proof.
  eexists. split.
  - vm_compute. reflexivity.
  - apply (getCloseableIssues_subsequence (tracker (world_open (T0 + 15 * day))) cfg_full
             marked [ {| number := 7 |} ] [ {| number := 7 |} ] eq_refl).
    vm_compute. reflexivity.
Defined.

Lemma find_rev_filter {A : Type} (f : A -> bool) (l : list A) :
  find f (rev (filter f l)) = find f (rev l).
Proof.
  induction l as [| x l IH]; simpl.
  - reflexivity.
  - destruct (f x) eqn:Hx; simpl.
    + rewrite !find_app, IH. reflexivity.
    + rewrite find_app, IH. simpl. rewrite Hx.
      destruct (find f (rev l)); reflexivity.
Qed.

Lemma judge_filter (cfg : Config) (thr : Date) (h : list LabeledEvent) :
  judge cfg thr (filter (isLabeledEvent cfg) h) = judge cfg thr h.
Proof. unfold judge. rewrite find_rev_filter. reflexivity. Qed.

Lemma judgeAll_filter (cfg : Config) (thr : Date) (history : Z -> list LabeledEvent)
    (items : list RestIssue) :
  judgeAll cfg thr (fun n => filter (isLabeledEvent cfg) (history n)) items
  = judgeAll cfg thr history items.
Proof.
  induction items as [| i items IH]; simpl.
  - reflexivity.
  - rewrite judge_filter, IH. reflexivity.
Qed.

(** X7.  Only the labeled events for the response-required label count.
    Two services that differ in the other events of the histories (comments,
    other labels, the label being taken off again) get the same issues closed:
    in particular, taking the label off after it was applied does not reset or
    stop the clock. *)
Theorem getCloseableIssues_ignores_other_events {S S' : Type} (env : Env S)
    (env' : Env S') (cfg : Config) (history : Z -> list LabeledEvent)
    (items : list RestIssue) (s : S) (s' : S') :
  fst (remote env (search_issuesAndPullRequests (searchQuery cfg) "updated" "asc" 30) s)
    = Ok items ->
  fst (remote env' (search_issuesAndPullRequests (searchQuery cfg) "updated" "asc" 30) s')
    = Ok items ->
  local env date_getTime s = local env' date_getTime s' ->
  (forall i, In i items ->
     reportsHistory env (issue_of (config_repo cfg) (number i)) (history (number i))) ->
  (forall i, In i items ->
     reportsHistory env' (issue_of (config_repo cfg) (number i))
       (filter (isLabeledEvent cfg) (history (number i)))) ->
  outcome (run env (getCloseableIssues cfg) s)
  = outcome (run env' (getCloseableIssues cfg) s').
Proof.
  intros Hs Hs' Hnow Hh Hh'.
  rewrite (getCloseableIssues_run env cfg history items s Hs Hh).
  rewrite (getCloseableIssues_run env' cfg
             (fun n => filter (isLabeledEvent cfg) (history n)) items s' Hs' Hh').
  rewrite Hnow. symmetry. apply judgeAll_filter.
Qed.

(** The issue whose label was taken off a day after it was applied is closed
    like the issue of the scenario. *)
Lemma getCloseableIssues_ignores_other_events_witness :
  outcome (run (tracker (world_busy (T0 + 15 * day))) (getCloseableIssues cfg_full) marked)
  = outcome (run (tracker (world_open (T0 + 15 * day))) (getCloseableIssues cfg_full) marked).
Proof.
  apply (getCloseableIssues_ignores_other_events
           (tracker (world_busy (T0 + 15 * day))) (tracker (world_open (T0 + 15 * day)))
           cfg_full history_busy [ {| number := 7 |} ] marked marked
           eq_refl eq_refl eq_refl).
  - intros i _. apply tracker_reportsHistory.
  - intros i [<- | []]. apply (tracker_reportsHistory (world_open (T0 + 15 * day))).
Defined.

(* ===================================================================== *)
(** ** Further properties: unmark *)
(* ===================================================================== *)

(** X8.  [unmark] changes nothing unless everything before went well: a
    request that changes the tracker is only sent after the event path was
    found, the file read and parsed, the issue and its labels fetched, and
    the comment found to come from the author of an issue that carries the
    response-required label. *)
Theorem unmark_mutates_only_when_unmarkable {S : Type} (env : Env S) (cfg : Config)
    (s : S) (r : Request) :
  In r (trace (run env (unmark cfg) s)) ->
  isMutation r = true ->
  exists path payload info labels s3,
    unmarkReads env s path payload info labels s3
    /\ unmarkable cfg payload info labels.
Proof.
  unfold unmark, readPayload, hasResponseRequiredLabel. simpl.
  destruct (local env env_GITHUB_EVENT_PATH s) as [[| c p] |] eqn:Hp; simpl;
    try (intros []).
  destruct (remote env (fs_readFile (String c p)) s) as [[text | e] s1] eqn:Hf; simpl.
  2: { intros [<- | []]. discriminate. }
  destruct (local env (JSON_parse text) s1) as [payload | e] eqn:Hj; simpl.
  2: { intros [<- | []]. discriminate. }
  destruct (remote env (issues_get _) s1) as [[info | e] s2] eqn:Hg; simpl.
  2: { intros [<- | [<- | []]]; discriminate. }
  destruct (remote env (issues_listLabelsOnIssue _) s2) as [[labels | e] s3] eqn:Hl; simpl.
  2: { intros [<- | [<- | [<- | []]]]; discriminate. }
  destruct (includes (map name labels) (responseRequiredLabel cfg)
            && login_is (info_user info) (login (comment_user (ice_comment payload))))
    eqn:Ht.
  - intros _ _. exists (String c p), payload, info, labels, s3. split.
    + unfold unmarkReads. split; [exact Hp |]. split; [discriminate |].
      exists text, s1, s2. repeat split; assumption.
    + apply unmarkable_test. exact Ht.
  - simpl. intros [<- | [<- | [<- | []]]]; discriminate.
Qed.

(** The answer of alice takes the label off: her comment was read, and it
    answers the request. *)
Lemma unmark_mutates_only_when_unmarkable_witness :
  exists path payload info labels s3,
    unmarkReads (tracker (world_closed bob alice)) marked path payload info labels s3
    /\ unmarkable cfg_full payload info labels.
Proof.
  apply (unmark_mutates_only_when_unmarkable (tracker (world_closed bob alice)) cfg_full
           marked (issues_removeLabel issue7 "response-required")).
  - vm_compute. tauto.
  - reflexivity.
Defined.

(** X9.  When the removal of the response-required label is rejected, [unmark]
    throws that error at once: the follow-up label is neither looked up nor
    added, and the issue is not reopened. *)
Theorem unmark_removal_rejected {S : Type} (env : Env S) (cfg : Config)
    (s s3 s4 : S) (path : string) (payload : IssueCommentEvent) (info : IssueInfo)
    (labels : list Label) (e : Error) :
  unmarkReads env s path payload info labels s3 ->
  unmarkable cfg payload info labels ->
  let issue := payload_issue (ice_repository payload) (ice_issue payload) in
  remote env (issues_removeLabel issue (responseRequiredLabel cfg)) s3 = (Err e, s4) ->
  run env (unmark cfg) s
  = (Err e, s4,
     [fs_readFile path; issues_get issue; issues_listLabelsOnIssue issue;
      issues_removeLabel issue (responseRequiredLabel cfg)]).
Proof.
  intros Hreads Hu issue Hr.
  destruct (unmark_run env cfg s s3 path payload info labels Hreads) as [Hyes _].
  fold issue in Hyes. rewrite (Hyes Hu). unfold unmarking. simpl.
  rewrite Hr. reflexivity.
Qed.

Lemma tracker_refusing_unmarkReads (closer sender : User) (l : Labels) :
  unmarkReads (tracker_refusing (world_closed closer sender) refuse_mutations) l
    "/github/workflow/event.json"
    {| ice_repository := demo; ice_issue := alice_issue;
       ice_comment := {| comment_user := sender; comment_body := "done" |} |}
    {| info_user := Some alice; info_state := "closed"; info_closed_by := Some closer |}
    (map Build_Label (on_issue l)) l.
Proof.
  split; [reflexivity |]. split; [discriminate |].
  exists "{ }", l, l. repeat split.
Qed.

(** Without write access the answer of alice changes nothing. *)
Lemma unmark_removal_rejected_witness :
  run (tracker_refusing (world_closed bob alice) refuse_mutations) (unmark cfg_full) marked
  = (Err "Resource not accessible by integration", marked,
     [fs_readFile "/github/workflow/event.json"; issues_get issue7;
      issues_listLabelsOnIssue issue7;
      issues_removeLabel issue7 "response-required"]).
Proof.
  apply (unmark_removal_rejected (tracker_refusing (world_closed bob alice) refuse_mutations)
           cfg_full marked marked marked _ _ _ _ "Resource not accessible by integration"
           (tracker_refusing_unmarkReads bob alice marked)
           (conj (or_intror (or_introl eq_refl)) eq_refl) eq_refl).
Defined.

(** X10.  Without a configured follow-up label, an unmark whose removal of
    the label is accepted sends nothing about labels besides that removal, and
    returns normally whether or not the reopening is accepted: after its reads
    and the removal it sends the reopening when the issue was closed by
    someone other than its author, and nothing otherwise. *)
Theorem unmark_without_followUp {S : Type} (env : Env S) (cfg : Config)
    (s s3 s4 : S) (path : string) (payload : IssueCommentEvent) (info : IssueInfo)
    (labels : list Label) :
  unmarkReads env s path payload info labels s3 ->
  unmarkable cfg payload info labels ->
  truthy (optionalFollowUpLabel cfg) = false ->
  let issue := payload_issue (ice_repository payload) (ice_issue payload) in
  remote env (issues_removeLabel issue (responseRequiredLabel cfg)) s3 = (Ok tt, s4) ->
  outcome (run env (unmark cfg) s) = Ok tt
  /\ (info_state info = "closed"
      /\ option_map login (info_closed_by info) <> option_map login (info_user info) ->
      trace (run env (unmark cfg) s)
      = [fs_readFile path; issues_get issue; issues_listLabelsOnIssue issue;
         issues_removeLabel issue (responseRequiredLabel cfg);
         issues_update issue "open" None])
  /\ (~ (info_state info = "closed"
         /\ option_map login (info_closed_by info) <> option_map login (info_user info)) ->
      trace (run env (unmark cfg) s)
      = [fs_readFile path; issues_get issue; issues_listLabelsOnIssue issue;
         issues_removeLabel issue (responseRequiredLabel cfg)]).
Proof.
  intros Hreads Hu Hf issue Hr.
  destruct (unmark_run env cfg s s3 path payload info labels Hreads) as [Hyes _].
  fold issue in Hyes. rewrite (Hyes Hu). clear Hyes.
  destruct Hu as [_ Hauthor].
  unfold unmarking.
  remember (reopenIfClosedByOther issue info) as tail eqn:Htail.
  assert (Hrun : run env
            (call (issues_removeLabel issue (responseRequiredLabel cfg)) ;;
             match optionalFollowUpLabel cfg with
             | Some (String c r) =>
                 ensureLabelExists cfg (String c r)
                   (orElse (optionalFollowUpLabelColor cfg) "ffffff") ;;
                 call (issues_addLabels issue [String c r])
             | _ => Ret tt
             end ;;
             tail) s3
          = let '(res, s5, t) := run env tail s4 in
            (res, s5, issues_removeLabel issue (responseRequiredLabel cfg) :: t)).
  { destruct (optionalFollowUpLabel cfg) as [[| c r] |]; try discriminate Hf;
      simpl; rewrite Hr; simpl; destruct (run env tail s4) as [[res s5] t]; reflexivity. }
  rewrite Hrun. clear Hrun. subst tail.
  destruct (reopenIfClosedByOther_run env issue info _ s4 Hauthor) as [Hopen Hstay].
  destruct (run env (reopenIfClosedByOther issue info) s4) as [[res s5] t] eqn:Hrun.
  unfold outcome, trace in *. simpl in *. split; [| split].
  - destruct (String.eqb (info_state info) "closed") eqn:Hs.
    + apply String.eqb_eq in Hs.
      destruct (login_is (info_closed_by info) (login (comment_user (ice_comment payload))))
        eqn:Hc.
      * revert Hrun. unfold reopenIfClosedByOther.
        destruct (info_user info) as [u |]; [| discriminate]. simpl in Hauthor.
        injection Hauthor as Hauthor. rewrite Hauthor, Hc.
        rewrite <- String.eqb_eq in Hs. rewrite Hs. simpl. congruence.
      * apply Hopen. split; [exact Hs |]. rewrite Hauthor. intros Heq.
        apply login_is_Some in Heq. congruence.
    + revert Hrun. unfold reopenIfClosedByOther. rewrite Hs. simpl. congruence.
  - intros Hc. destruct (Hopen Hc) as [_ ->]. reflexivity.
  - intros Hc. rewrite (Hstay Hc). reflexivity.
Qed.

(** Alice had closed her issue herself; her answer takes the label off and
    leaves the issue closed. *)
Lemma unmark_without_followUp_witness :
  trace (run (tracker (world_closed alice alice)) (unmark cfg_plain) marked)
  = [fs_readFile "/github/workflow/event.json"; issues_get issue7;
     issues_listLabelsOnIssue issue7;
     issues_removeLabel issue7 "response-required"].
Proof.
  apply (proj2 (proj2 (unmark_without_followUp (tracker (world_closed alice alice))
                         cfg_plain marked marked
                         {| on_issue := ["bug"]; in_repo := ["bug"; "response-required"] |}
                         _ _ _ _ (tracker_unmarkReads alice alice marked)
                         (conj (or_intror (or_introl eq_refl)) eq_refl) eq_refl eq_refl))).
  simpl. intros [_ H]. apply H. reflexivity.
Defined.

(** X11.  With a follow-up label configured, once the removal of the
    response-required label is accepted the follow-up label is looked up and
    then added to the issue, whatever the lookup and the creation are
    answered; when the addition is rejected [unmark] throws that error and
    does not reopen the issue. *)
Theorem unmark_applies_followUp {S : Type} (env : Env S) (cfg : Config)
    (s s3 s4 : S) (path : string) (payload : IssueCommentEvent) (info : IssueInfo)
    (labels : list Label) (followUp : string) :
  unmarkReads env s path payload info labels s3 ->
  unmarkable cfg payload info labels ->
  optionalFollowUpLabel cfg = Some followUp ->
  followUp <> EmptyString ->
  let issue := payload_issue (ice_repository payload) (ice_issue payload) in
  remote env (issues_removeLabel issue (responseRequiredLabel cfg)) s3 = (Ok tt, s4) ->
  (exists t1 t2,
     trace (run env (unmark cfg) s)
     = (t1 ++ issues_getLabel (config_repo cfg) followUp :: t2)%list
     /\ In (issues_addLabels issue [followUp]) t2)
  /\ (forall e s6,
        remote env (issues_addLabels issue [followUp])
          (final (run env (ensureLabelExists cfg followUp
                             (orElse (optionalFollowUpLabelColor cfg) "ffffff")) s4))
        = (Err e, s6) ->
        outcome (run env (unmark cfg) s) = Err e
        /\ filter isUpdate (trace (run env (unmark cfg) s)) = []).
Proof.
  intros Hreads Hu Hf Hne issue Hr.
  destruct (unmark_run env cfg s s3 path payload info labels Hreads) as [Hyes _].
  fold issue in Hyes. rewrite (Hyes Hu). clear Hyes.
  unfold unmarking. rewrite Hf. destruct followUp as [| c r]; [contradiction |].
  remember (reopenIfClosedByOther issue info) as tail eqn:Htail.
  unfold ensureLabelExists, final. simpl. rewrite Hr. simpl.
  destruct (remote env (issues_getLabel (config_repo cfg) (String c r)) s4)
    as [[l | e] s5]; simpl.
  - destruct (remote env (issues_addLabels issue [String c r]) s5) as [[[] | e] s6] eqn:Ha;
      simpl.
    + destruct (run env tail s6) as [[res s7] t]. unfold trace, outcome. simpl. split.
      * exists [fs_readFile path; issues_get issue; issues_listLabelsOnIssue issue;
                issues_removeLabel issue (responseRequiredLabel cfg)],
               (issues_addLabels issue [String c r] :: t).
        split; [reflexivity | left; reflexivity].
      * intros e s8 H. discriminate H.
    + unfold trace, outcome. simpl. split.
      * exists [fs_readFile path; issues_get issue; issues_listLabelsOnIssue issue;
                issues_removeLabel issue (responseRequiredLabel cfg)],
               [issues_addLabels issue [String c r]].
        split; [reflexivity | left; reflexivity].
      * intros e' s8 H. injection H as <- <-. split; reflexivity.
  - destruct (remote env (issues_createLabel _ _ _) s5) as [x s5'] eqn:Hc; simpl.
    destruct (remote env (issues_addLabels issue [String c r]) s5') as [[[] | e'] s6] eqn:Ha;
      simpl.
    + destruct (run env tail s6) as [[res s7] t]. unfold trace, outcome. simpl. split.
      * exists [fs_readFile path; issues_get issue; issues_listLabelsOnIssue issue;
                issues_removeLabel issue (responseRequiredLabel cfg)],
               (issues_createLabel (config_repo cfg) (String c r)
                  (orElse (optionalFollowUpLabelColor cfg) "ffffff")
                :: issues_addLabels issue [String c r] :: t).
        split; [reflexivity | right; left; reflexivity].
      * intros e0 s8 H. discriminate H.
    + unfold trace, outcome. simpl. split.
      * exists [fs_readFile path; issues_get issue; issues_listLabelsOnIssue issue;
                issues_removeLabel issue (responseRequiredLabel cfg)],
               [issues_createLabel (config_repo cfg) (String c r)
                  (orElse (optionalFollowUpLabelColor cfg) "ffffff");
                issues_addLabels issue [String c r]].
        split; [reflexivity | right; left; reflexivity].
      * intros e0 s8 H. injection H as <- <-. split; reflexivity.
Qed.

(** The answer of alice puts the follow-up label on her issue. *)
Lemma unmark_applies_followUp_witness :
  exists t1 t2,
    trace (run (tracker (world_closed bob alice)) (unmark cfg_full) marked)
    = (t1 ++ issues_getLabel (config_repo cfg_full) "follow-up" :: t2)%list
    /\ In (issues_addLabels issue7 ["follow-up"]) t2.
Proof.
  apply (proj1 (unmark_applies_followUp (tracker (world_closed bob alice)) cfg_full
                  marked marked
                  {| on_issue := ["bug"]; in_repo := ["bug"; "response-required"] |}
                  _ _ _ _ "follow-up"
                  (tracker_unmarkReads bob alice marked)
                  (conj (or_intror (or_introl eq_refl)) eq_refl)
                  eq_refl ltac:(discriminate) eq_refl)).
Defined.

Lemma unmark_createLabel_only (cfg : Config) (P : Request -> Prop) :
  (forall r, (forall rp l c, r <> issues_createLabel rp l c) -> P r) ->
  (forall l, optionalFollowUpLabel cfg = Some l -> l <> EmptyString ->
     P (issues_createLabel (config_repo cfg) l
          (orElse (optionalFollowUpLabelColor cfg) "ffffff"))) ->
  sendsOnly P (unmark cfg).
Proof.
  intros Hother Hcreate. unfold unmark.
  apply sendsOnly_bind.
  { unfold readPayload. simpl. intros [[| c r] |]; try exact I.
    split; [apply Hother; discriminate |]. intros [text | e]; simpl; [| exact I].
    intros parsed. apply sendsOnly_settle. }
  intros payload. cbv zeta.
  apply sendsOnly_bind; [apply sendsOnly_call, Hother; discriminate |]. intros info.
  apply sendsOnly_bind.
  { unfold hasResponseRequiredLabel. apply sendsOnly_bind; [| intros; exact I].
    apply sendsOnly_call, Hother. discriminate. }
  intros isMarked.
  destruct (isMarked && login_is _ _); [| exact I].
  apply sendsOnly_bind; [apply sendsOnly_call, Hother; discriminate |]. intros _.
  apply sendsOnly_bind.
  { destruct (optionalFollowUpLabel cfg) as [[| c r] |] eqn:Hf; try exact I.
    apply sendsOnly_bind.
    - unfold ensureLabelExists. apply sendsOnly_tryCatch.
      + apply sendsOnly_bind; [| intros; exact I].
        apply sendsOnly_call, Hother. discriminate.
      + intros e. apply sendsOnly_start. apply Hcreate; [reflexivity | discriminate].
    - intros _. apply sendsOnly_call, Hother. discriminate. }
  intros _. unfold reopenIfClosedByOther.
  destruct (String.eqb _ _); [| exact I].
  destruct (info_user info) as [u |]; [| exact I].
  destruct (negb _); [| exact I].
  apply sendsOnly_start, Hother. discriminate.
Qed.

(** X12.  Whatever the service answers, the only label [unmark] ever asks to
    create is the configured follow-up label, in the configured repository,
    with the configured colour when there is one. *)
Theorem unmark_creates_only_followUp {S : Type} (env : Env S) (cfg : Config) (s : S)
    (configured : string) :
  optionalFollowUpLabelColor cfg = Some configured ->
  configured <> EmptyString ->
  forall r l color,
    In (issues_createLabel r l color) (trace (run env (unmark cfg) s)) ->
    r = config_repo cfg /\ optionalFollowUpLabel cfg = Some l /\ color = configured.
Proof.
  intros Hc Hne r l color Hin.
  pose proof (sendsOnly_trace env
                (fun q => forall r l color, q = issues_createLabel r l color ->
                   r = config_repo cfg /\ optionalFollowUpLabel cfg = Some l
                   /\ color = configured)
                (unmark cfg) s) as H.
  rewrite Forall_forall in H. eapply H; [| exact Hin | reflexivity].
  apply unmark_createLabel_only.
  - intros q Hq r0 l0 c0 ->. exfalso. eapply Hq. reflexivity.
  - intros l0 Hl _ r0 l1 c0 Heq. injection Heq as <- <- <-.
    rewrite Hc. destruct configured as [| a b]; [contradiction |].
    repeat split. exact Hl.
Qed.

(** With the colour 0e8a16 configured, the follow-up label of the scenario is
    created in that colour. *)
Lemma unmark_creates_only_followUp_witness :
  In (issues_createLabel (config_repo cfg_colored) "follow-up" "0e8a16")
     (trace (run (tracker (world_closed bob alice)) (unmark cfg_colored) marked))
  /\ (config_repo cfg_colored = config_repo cfg_colored
      /\ optionalFollowUpLabel cfg_colored = Some "follow-up"
      /\ "0e8a16" = "0e8a16").
Proof.
  assert (Hin : In (issues_createLabel (config_repo cfg_colored) "follow-up" "0e8a16")
                  (trace (run (tracker (world_closed bob alice)) (unmark cfg_colored) marked))).
  { vm_compute. tauto. }
  split; [exact Hin |].
  apply (unmark_creates_only_followUp (tracker (world_closed bob alice)) cfg_colored
           marked "0e8a16" eq_refl ltac:(discriminate)
           (config_repo cfg_colored) "follow-up" "0e8a16" Hin).
Defined.

(* ===================================================================== *)
(** ** Further properties: removeLabels *)
(* ===================================================================== *)

Ltac answer_in H :=
  match type of H with
  | context [remote ?e ?r ?s] =>
      let x := fresh "x" in
      let s' := fresh "s" in
      destruct (remote e r s) as [[x | x] s']; simpl in H
  end.

(** X13.  [removeLabels] never changes anything but the labels of the issue
    that was closed, and only in one situation: every request of it that
    changes the tracker is the removal of a label the issue was listed with,
    sent when a follow-up label is configured, the action of the event is
    closed and the sender is the author of the issue. *)
Theorem removeLabels_mutates_only_on_own_close {S : Type} (env : Env S) (cfg : Config)
    (s : S) (r : Request) :
  In r (trace (run env (removeLabels cfg) s)) ->
  isMutation r = true ->
  let payload := local env context_payload s in
  let issue := payload_issue (ie_repository payload) (ie_issue payload) in
  truthy (optionalFollowUpLabel cfg) = true
  /\ ie_action payload = "closed"
  /\ login (payload_user (ie_issue payload)) = login (ie_sender payload)
  /\ exists labels s1 l,
       remote env (issues_listLabelsOnIssue issue) s = (Ok labels, s1)
       /\ r = issues_removeLabel issue l
       /\ In l (map name labels).
Proof.
  intros Hin Hm payload issue. revert Hin. unfold removeLabels.
  destruct (optionalFollowUpLabel cfg) as [[| c f] |]; try (intros []).
  simpl. fold payload.
  destruct (String.eqb (ie_action payload) "closed") eqn:Ha; simpl; try (intros []).
  destruct (String.eqb (login (payload_user (ie_issue payload)))
              (login (ie_sender payload))) eqn:Hs; simpl; try (intros []).
  apply String.eqb_eq in Ha. apply String.eqb_eq in Hs. fold issue.
  destruct (remote env (issues_listLabelsOnIssue issue) s) as [[labels | e] s1]; simpl.
  2: { intros [<- | []]. discriminate Hm. }
  intros Hin. split; [reflexivity |]. split; [exact Ha |]. split; [exact Hs |].
  exists labels, s1.
  destruct (includes (map name labels) (responseRequiredLabel cfg)) eqn:H1;
    destruct (includes (map name labels) (String c f)) eqn:H2; simpl in Hin;
    repeat answer_in Hin; unfold trace in Hin; simpl in Hin;
    repeat (destruct Hin as [<- | Hin]; try discriminate Hm); try contradiction;
    eexists; (split; [reflexivity |]); (split; [reflexivity |]);
    apply includes_In; assumption.
Qed.

(** Alice closes her own issue: the removal of the label comes after the
    listing. *)
Lemma removeLabels_mutates_only_on_own_close_witness :
  truthy (optionalFollowUpLabel cfg_full) = true
  /\ ie_action (w_issues_event (world_closed alice alice)) = "closed"
  /\ login (payload_user (ie_issue (w_issues_event (world_closed alice alice))))
     = login (ie_sender (w_issues_event (world_closed alice alice)))
  /\ exists labels s1 l,
       remote (tracker (world_closed alice alice)) (issues_listLabelsOnIssue issue7) marked
       = (Ok labels, s1)
       /\ issues_removeLabel issue7 "response-required" = issues_removeLabel issue7 l
       /\ In l (map name labels).
Proof.
  apply (removeLabels_mutates_only_on_own_close (tracker (world_closed alice alice))
           cfg_full marked (issues_removeLabel issue7 "response-required")).
  - vm_compute. tauto.
  - reflexivity.
Defined.

(** X14.  When the removal of the response-required label is rejected,
    [removeLabels] throws that error and does not go on to the follow-up
    label, even when the issue carries it. *)
Theorem removeLabels_removal_rejected {S : Type} (env : Env S) (cfg : Config)
    (s s1 s2 : S) (labels : list Label) (e : Error) :
  let payload := local env context_payload s in
  let issue := payload_issue (ie_repository payload) (ie_issue payload) in
  truthy (optionalFollowUpLabel cfg) = true ->
  ie_action payload = "closed" ->
  login (payload_user (ie_issue payload)) = login (ie_sender payload) ->
  remote env (issues_listLabelsOnIssue issue) s = (Ok labels, s1) ->
  In (responseRequiredLabel cfg) (map name labels) ->
  remote env (issues_removeLabel issue (responseRequiredLabel cfg)) s1 = (Err e, s2) ->
  run env (removeLabels cfg) s
  = (Err e, s2,
     [issues_listLabelsOnIssue issue;
      issues_removeLabel issue (responseRequiredLabel cfg)]).
Proof.
  intros payload issue Hf Ha Hs Hl Hin Hr. unfold removeLabels.
  destruct (optionalFollowUpLabel cfg) as [[| c f] |]; try discriminate Hf.
  simpl. fold payload. rewrite Ha, Hs, !String.eqb_refl. simpl. fold issue.
  rewrite Hl. simpl. apply includes_In in Hin. rewrite Hin. simpl.
  rewrite Hr. reflexivity.
Qed.

(** Without write access both labels stay on the issue alice closed. *)
Lemma removeLabels_removal_rejected_witness :
  run (tracker_refusing (world_closed alice alice) refuse_mutations)
    (removeLabels cfg_full) marked_both
  = (Err "Resource not accessible by integration", marked_both,
     [issues_listLabelsOnIssue issue7;
      issues_removeLabel issue7 "response-required"]).
Proof.
  apply (removeLabels_removal_rejected
           (tracker_refusing (world_closed alice alice) refuse_mutations) cfg_full
           marked_both marked_both marked_both
           [ {| name := "response-required" |}; {| name := "follow-up" |} ]
           "Resource not accessible by integration"
           eq_refl eq_refl eq_refl eq_refl (or_introl eq_refl) eq_refl).
Defined.

(** X15.  When the follow-up label is configured to be the response-required
    label itself and the issue carries it, [removeLabels] asks for its removal
    twice, the second time after the first was accepted, and returns or throws
    as the second removal is answered. *)
Theorem removeLabels_same_label_twice {S : Type} (env : Env S) (cfg : Config)
    (s s1 s2 : S) (labels : list Label) :
  let payload := local env context_payload s in
  let issue := payload_issue (ie_repository payload) (ie_issue payload) in
  optionalFollowUpLabel cfg = Some (responseRequiredLabel cfg) ->
  responseRequiredLabel cfg <> EmptyString ->
  ie_action payload = "closed" ->
  login (payload_user (ie_issue payload)) = login (ie_sender payload) ->
  remote env (issues_listLabelsOnIssue issue) s = (Ok labels, s1) ->
  In (responseRequiredLabel cfg) (map name labels) ->
  remote env (issues_removeLabel issue (responseRequiredLabel cfg)) s1 = (Ok tt, s2) ->
  trace (run env (removeLabels cfg) s)
  = [issues_listLabelsOnIssue issue;
     issues_removeLabel issue (responseRequiredLabel cfg);
     issues_removeLabel issue (responseRequiredLabel cfg)]
  /\ outcome (run env (removeLabels cfg) s)
     = fst (remote env (issues_removeLabel issue (responseRequiredLabel cfg)) s2).
Proof.
  intros payload issue Hf Hne Ha Hs Hl Hin Hr. unfold removeLabels. rewrite Hf.
  apply includes_In in Hin.
  destruct (responseRequiredLabel cfg) as [| c f]; [contradiction |].
  simpl. fold payload. rewrite Ha, Hs, !String.eqb_refl. simpl. fold issue.
  rewrite Hl. simpl. rewrite Hin. simpl. rewrite Hr. simpl.
  destruct (remote env (issues_removeLabel issue (String c f)) s2) as [[[] | e] s3];
    split; reflexivity.
Qed.

(** On the tracker the second removal finds the label gone and is refused:
    the clean-up ends in an error although the label was removed. *)
Lemma removeLabels_same_label_twice_witness :
  outcome (run (tracker (world_closed alice alice)) (removeLabels cfg_same) marked)
  = Err "Label does not exist".
Proof.
  apply (proj2 (removeLabels_same_label_twice (tracker (world_closed alice alice)) cfg_same
                  marked marked
                  {| on_issue := ["bug"]; in_repo := ["bug"; "response-required"] |}
                  [ {| name := "bug" |}; {| name := "response-required" |} ]
                  eq_refl ltac:(discriminate) eq_refl eq_refl eq_refl
                  (or_intror (or_introl eq_refl)) eq_refl)).
Defined.

(* ===================================================================== *)
(** ** Further properties: order of a sweep, the payload, relabelling *)
(* ===================================================================== *)

(** X16.  A sweep makes sure of the response-required label first and then
    searches: its requests are those of [ensureLabelExists] for that label and
    its colour, followed by the search, whatever the lookup or the creation of
    the label was answered. *)
Theorem sweep_ensures_label_then_searches {S : Type} (env : Env S) (cfg : Config)
    (s : S) :
  exists rest,
    trace (run env (sweep cfg) s)
    = (trace (run env (ensureLabelExists cfg (responseRequiredLabel cfg)
                         (responseRequiredColor cfg)) s)
       ++ search_issuesAndPullRequests (searchQuery cfg) "updated" "asc" 30 :: rest)%list.
Proof.
  destruct (sweep_run env cfg s) as (s1 & t1 & res & s2 & t2 & He & Hg & _ & _ & ->).
  rewrite He. unfold trace at 2. cbn [snd].
  assert (Ht2 : exists t, t2 = search_issuesAndPullRequests (searchQuery cfg)
                                 "updated" "asc" 30 :: t).
  { revert Hg. unfold getCloseableIssues, since. simpl.
    destruct (remote env _ s1) as [[items | e] s1']; simpl.
    - destruct (run env (filterAsync _ items) s1') as [[r s3] t].
      intros H. injection H as _ _ <-. eauto.
    - intros H. injection H as _ _ <-. eauto. }
  destruct Ht2 as (t & ->).
  destruct res as [closeable | e].
  - destruct (run env (forOf closeable _) s2) as [[y s3] t3].
    exists (t ++ t3)%list. reflexivity.
  - exists t. reflexivity.
Qed.

(** X17.  When the event file cannot be read, or its text is not the JSON of
    a payload, [unmark] throws that error; the reading of the file is the only
    request it has sent, and the tracker is not contacted. *)
Theorem unmark_unreadable_payload {S : Type} (env : Env S) (cfg : Config) (s : S)
    (path : string) :
  local env env_GITHUB_EVENT_PATH s = Some path ->
  path <> EmptyString ->
  (forall e s1, remote env (fs_readFile path) s = (Err e, s1) ->
     run env (unmark cfg) s = (Err e, s1, [fs_readFile path]))
  /\ (forall text s1 e,
        remote env (fs_readFile path) s = (Ok text, s1) ->
        local env (JSON_parse text) s1 = Err e ->
        run env (unmark cfg) s = (Err e, s1, [fs_readFile path])).
Proof.
  intros Hp Hne. destruct path as [| c p]; [contradiction |].
  unfold unmark, readPayload. simpl. rewrite Hp. simpl. split.
  - intros e s1 Hf. rewrite Hf. reflexivity.
  - intros text s1 e Hf Hj. rewrite Hf. simpl. rewrite Hj. reflexivity.
Qed.

(** Against a service that refuses everything the event file is not read. *)
Lemma unmark_unreadable_payload_witness :
  run (tracker_refusing (world_closed bob alice) refuse_all) (unmark cfg_full) marked
  = (Err "Resource not accessible by integration", marked,
     [fs_readFile "/github/workflow/event.json"]).
Proof.
  apply (proj1 (unmark_unreadable_payload
                  (tracker_refusing (world_closed bob alice) refuse_all) cfg_full marked
                  "/github/workflow/event.json" eq_refl ltac:(discriminate))
           "Resource not accessible by integration" marked eq_refl).
Defined.

(** X18.  Labelling again restarts the clock: when the last event of the
    history of a found issue is a labeling with the response-required label,
    the issue is returned if and only if that event is strictly older than the
    threshold, however old the earlier labelings are. *)
Theorem getCloseableIssues_relabel_resets {S : Type} (env : Env S) (cfg : Config)
    (history : Z -> list LabeledEvent) (items closeable : list RestIssue) (s : S)
    (i : RestIssue) (earlier : list LabeledEvent) (e : LabeledEvent) :
  fst (remote env (search_issuesAndPullRequests (searchQuery cfg) "updated" "asc" 30) s)
    = Ok items ->
  (forall j, In j items ->
     reportsHistory env (issue_of (config_repo cfg) (number j)) (history (number j))) ->
  outcome (run env (getCloseableIssues cfg) s) = Ok closeable ->
  In i items ->
  history (number i) = (earlier ++ [e])%list ->
  event e = "labeled" ->
  name (label e) = responseRequiredLabel cfg ->
  (In i closeable
   <-> created_at e < local env date_getTime s - daysUntilClose cfg * 24 * 60 * 60 * 1000).
Proof.
  intros Hs Hh Hc Hi Hhist Hev Hname.
  rewrite (getCloseableIssues_run env cfg history items s Hs Hh) in Hc.
  apply judgeAll_Ok in Hc. subst closeable. rewrite filter_In. unfold verdict.
  rewrite Hhist, rev_app_distr. simpl.
  assert (Hl : isLabeledEvent cfg e = true)
    by (apply isLabeledEvent_true; split; assumption).
  rewrite Hl, Z.ltb_lt. tauto.
Qed.

(** Labelled at [T0] and again 10 days later, the issue is not closeable 20
    days after [T0] with a window of 14 days. *)
Lemma getCloseableIssues_relabel_resets_witness :
  exists closeable,
    outcome (run (tracker (world_relabeled (T0 + 20 * day))) (getCloseableIssues cfg_full)
               marked) = Ok closeable
    /\ ~ In {| number := 7 |} closeable.
Proof.
  exists []. split; [vm_compute; reflexivity |]. intros Hin.
  pose proof (proj1 (getCloseableIssues_relabel_resets
                       (tracker (world_relabeled (T0 + 20 * day))) cfg_full
                       history_relabeled [ {| number := 7 |} ] [] marked
                       {| number := 7 |} [labeled_at T0] (labeled_at (T0 + 10 * day))
                       eq_refl (fun j _ => tracker_reportsHistory _ _) eq_refl
                       (or_introl eq_refl) eq_refl eq_refl eq_refl) Hin) as Hlt.
  vm_compute in Hlt. discriminate Hlt.
Defined.

Lemma newDate_invalid (t : Z) : 8640000000000000 < Z.abs t -> newDate t = InvalidDate.
Proof.
  unfold newDate, maxTime. intros H.
  destruct (Z.leb_spec (Z.abs t) 8640000000000000) as [Hle | _]; [lia | reflexivity].
Qed.

Lemma judgeAll_invalid (cfg : Config) (history : Z -> list LabeledEvent)
    (items : list RestIssue) (i : RestIssue) (e : LabeledEvent) :
  In i items ->
  In e (history (number i)) ->
  isLabeledEvent cfg e = true ->
  judgeAll cfg InvalidDate history items = Err "Invalid time value".
Proof.
  intros Hi He Hl. induction items as [| j items IH]; [destruct Hi |].
  simpl. unfold judge at 1.
  destruct (find (isLabeledEvent cfg) (rev (history (number j)))) as [x |] eqn:Hf.
  - destruct (newDate (created_at x)); reflexivity.
  - destruct Hi as [-> | Hi].
    + apply in_rev in He. rewrite (find_none _ _ Hf e He) in Hl. discriminate Hl.
    + rewrite (IH Hi). reflexivity.
Qed.

(** X19.  A window so long that [now - daysUntilClose * 24h] is no valid date
    stops the sweep: as soon as one found issue has a labeled event for the
    response-required label, the sweep throws the RangeError of
    [toISOString], and it closes no issue. *)
Theorem sweep_invalid_threshold {S : Type} (env : Env S) (cfg : Config) (s : S)
    (history : Z -> list LabeledEvent) (items : list RestIssue) (i : RestIssue)
    (e : LabeledEvent) :
  fst (remote env (search_issuesAndPullRequests (searchQuery cfg) "updated" "asc" 30)
         (final (run env (ensureLabelExists cfg (responseRequiredLabel cfg)
                            (responseRequiredColor cfg)) s)))
    = Ok items ->
  (forall j, In j items ->
     reportsHistory env (issue_of (config_repo cfg) (number j)) (history (number j))) ->
  8640000000000000
  < Z.abs (local env date_getTime
             (final (run env (ensureLabelExists cfg (responseRequiredLabel cfg)
                                (responseRequiredColor cfg)) s))
           - daysUntilClose cfg * 86400000) ->
  In i items ->
  In e (history (number i)) ->
  event e = "labeled" ->
  name (label e) = responseRequiredLabel cfg ->
  outcome (run env (sweep cfg) s) = Err "Invalid time value"
  /\ filter isUpdate (trace (run env (sweep cfg) s)) = []
  /\ filter isComment (trace (run env (sweep cfg) s)) = [].
Proof.
  intros Hs Hh Hthr Hi He Hev Hname. apply sweep_failure.
  rewrite (getCloseableIssues_run env cfg history items _ Hs Hh).
  rewrite newDate_invalid by lia.
  apply (judgeAll_invalid cfg history items i e Hi He).
  apply isLabeledEvent_true. split; assumption.
Qed.

(** With a window of 200000000 days the closeable issue of the scenario is
    not closed: the sweep throws. *)
Lemma sweep_invalid_threshold_witness :
  outcome (run (tracker (world_open (T0 + 15 * day))) (sweep cfg_forever) marked)
  = Err "Invalid time value".
Proof.
  apply (proj1 (sweep_invalid_threshold (tracker (world_open (T0 + 15 * day))) cfg_forever
                  marked history7 [ {| number := 7 |} ] {| number := 7 |} (labeled_at T0)
                  eq_refl (fun j _ => tracker_reportsHistory _ _)
                  ltac:(vm_compute; reflexivity)
                  (or_introl eq_refl) (or_introl eq_refl) eq_refl eq_refl)).
Defined.
